(** * L2F Tennis Challenge: the tester of HandedNotebook.ipynb

    A shallow embedding of the notebook's tester: the transition query
    [model] (cell 9) and the evaluation cell (cell 13) that makes a policy
    play [number_of_points_played] points against the historical table.

    The notebook keeps everything in module-level variables, so the
    embedding threads one record of those variables, [globals], through a
    small state-and-exception monad.  [np.random] is an entropy tape read
    through a cursor: every bounded draw consumes one cell.  The
    [while True] loop of a point has no bound of its own, so its embedding
    takes fuel and answers [OutOfFuel] when the fuel is used up.  The
    [print] calls and the loop variable [num] carry no state the cell reads
    back and are left out. *)

From Stdlib Require Import ZArith QArith Lia Ascii String.
From stdpp Require Import base option list strings gmap.

Open Scope string_scope.

(** ** Exceptions and the random generator *)

(** The exceptions the two cells can raise: [list.index] on a missing
    element and [np.random.choice] on an empty sequence raise [ValueError],
    [x[0]] on an empty sequence raises [IndexError], and [/] by zero raises
    [ZeroDivisionError]. *)
Inductive exn : Set :=
  | ValueError
  | IndexError
  | ZeroDivisionError.

(** The state of [np.random]: the tape of raw values still to come and the
    position of the next one.  Seeding fixes the tape. *)
Record rng : Type := Rng { tape : nat -> nat; cursor : nat }.

(** One bounded draw: a value below [n] (for [0 < n]) and the generator
    moved one cell on. *)
Definition randbelow (n : nat) (g : rng) : nat * rng :=
  (tape g (cursor g) `mod` n, Rng (tape g) (S (cursor g))).

(** ** The notebook's global variables *)

(** The two vocabularies are unpickled and the table and the records come
    from [build_historical_model] of utils.py; none of them is written in
    the notebook, so they are fields like any other global.  [Model] is
    subscripted with a pair of positions, [Model[i, j]], and holds a
    sequence of next prompts at every pair of positions of the two
    vocabularies; the records are sequences of shots.  Python integers are
    unbounded: the threshold is in [Z], the counters only count up from
    zero and are in [nat]. *)
Record globals : Type := Globals {
  poss_prompts : list string;               (* possible_prompts.p *)
  all_shots : list string;                  (* allowed_shots.p *)
  Model : nat -> nat -> list string;        (* build_historical_model(...)[0] *)
  shots_opo_com : list (list string);       (* build_historical_model(...)[1] *)
  threshold : Z;
  example_policy : gmap string (list string);
  serves_opponent : list string;
  points_won : nat;
  points_lost : nat;
  current_prompt : string;
  random_state : rng
}.

Definition set_random_state (g : rng) (σ : globals) : globals :=
  Globals (poss_prompts σ) (all_shots σ) (Model σ) (shots_opo_com σ)
          (threshold σ) (example_policy σ) (serves_opponent σ)
          (points_won σ) (points_lost σ) (current_prompt σ) g.

Definition set_current_prompt (p : string) (σ : globals) : globals :=
  Globals (poss_prompts σ) (all_shots σ) (Model σ) (shots_opo_com σ)
          (threshold σ) (example_policy σ) (serves_opponent σ)
          (points_won σ) (points_lost σ) p (random_state σ).

Definition set_points_won (n : nat) (σ : globals) : globals :=
  Globals (poss_prompts σ) (all_shots σ) (Model σ) (shots_opo_com σ)
          (threshold σ) (example_policy σ) (serves_opponent σ)
          n (points_lost σ) (current_prompt σ) (random_state σ).

Definition set_points_lost (n : nat) (σ : globals) : globals :=
  Globals (poss_prompts σ) (all_shots σ) (Model σ) (shots_opo_com σ)
          (threshold σ) (example_policy σ) (serves_opponent σ)
          (points_won σ) n (current_prompt σ) (random_state σ).

Definition set_example_policy (π : gmap string (list string)) (σ : globals)
  : globals :=
  Globals (poss_prompts σ) (all_shots σ) (Model σ) (shots_opo_com σ)
          (threshold σ) π (serves_opponent σ)
          (points_won σ) (points_lost σ) (current_prompt σ) (random_state σ).

Definition set_serves_opponent (l : list string) (σ : globals) : globals :=
  Globals (poss_prompts σ) (all_shots σ) (Model σ) (shots_opo_com σ)
          (threshold σ) (example_policy σ) l
          (points_won σ) (points_lost σ) (current_prompt σ) (random_state σ).

(** ** The monad of a notebook cell *)

(** A computation ends with a value, with an uncaught exception, or has not
    ended when the fuel of a [while True] loop is gone.  The first two carry
    the globals as the computation left them. *)
Inductive res (A : Type) : Type :=
  | Ret (a : A) (σ : globals)
  | Exc (e : exn) (σ : globals)
  | OutOfFuel.
Arguments Ret {A} a σ.
Arguments Exc {A} e σ.
Arguments OutOfFuel {A}.

Definition M (A : Type) : Type := globals -> res A.

Definition ret {A} (a : A) : M A := fun σ => Ret a σ.

Definition raise {A} (e : exn) : M A := fun σ => Exc e σ.

Definition bind {A B} (m : M A) (k : A -> M B) : M B :=
  fun σ =>
    match m σ with
    | Ret a σ' => k a σ'
    | Exc e σ' => Exc e σ'
    | OutOfFuel => OutOfFuel
    end.

Notation "'do' x <- m ; k" := (bind m (fun x => k))
  (at level 10, x name, m at level 100, k at level 200).
Notation "m ;; k" := (bind m (fun _ => k))
  (at level 100, k at level 200, right associativity).

Definition gets {A} (f : globals -> A) : M A := fun σ => Ret (f σ) σ.

Definition modify (f : globals -> globals) : M unit := fun σ => Ret tt (f σ).

(** ** Library calls *)

(** [l.index(x)]: the position of the first element equal to [x]. *)
Fixpoint index (x : string) (l : list string) : option nat :=
  match l with
  | [] => None
  | y :: l' => if decide (x = y) then Some 0 else S <$> index x l'
  end.

(** [l.index(x)] as a call: [ValueError] when [x] is not in [l]. *)
Definition list_index (x : string) (l : list string) : M nat :=
  match index x l with
  | Some i => ret i
  | None => raise ValueError
  end.

(** [np.random.choice(l)]: one draw below [len(l)] and the element there;
    [ValueError] on an empty sequence, before any draw. *)
Definition choice (l : list string) : M string :=
  fun σ =>
    match l with
    | [] => Exc ValueError σ
    | d :: _ =>
        let '(i, g) := randbelow (length l) (random_state σ) in
        Ret (nth i l d) (set_random_state g σ)
    end.

(** [np.random.randint(0, 2)]. *)
Definition randint_0_2 : M nat :=
  fun σ =>
    let '(r, g) := randbelow 2 (random_state σ) in
    Ret r (set_random_state g σ).

(** ** Cell 9: the transition query *)

(** [model(prompt, shot)].  The subscript evaluates [poss_prompts.index]
    first, then [all_shots.index]; the table is read at that pair; a bucket
    longer than [threshold] is sampled, anything else answers ['n@']. *)
Definition model (prompt shot : string) : M string :=
  do ps <- gets poss_prompts;
  do i <- list_index prompt ps;
  do shots <- gets all_shots;
  do j <- list_index shot shots;
  do table <- gets Model;
  let n_grams_ps := table i j in
  do thr <- gets threshold;
  if (thr <? Z.of_nat (length n_grams_ps))%Z
  then choice n_grams_ps
  else ret "n@".

(** ** Cell 13: the tester *)

(** [serves_opponent = [shot for shot in [sh[0] for sh in shots_opo_com]
    if shot[0] in '456']].  The inner comprehension is evaluated whole
    before the filter runs; [sh[0]] raises on an empty record and
    [shot[0]] on an empty token. *)
Fixpoint first_shots (records : list (list string)) : M (list string) :=
  match records with
  | [] => ret []
  | sh :: records' =>
      match sh with
      | [] => raise IndexError
      | shot :: _ => do rest <- first_shots records'; ret (shot :: rest)
      end
  end.

(** [c in '456'] for a one-character string [c]. *)
Definition in_456 (c : ascii) : bool :=
  bool_decide (c = "4"%char) || bool_decide (c = "5"%char)
  || bool_decide (c = "6"%char).

Fixpoint keep_serves (shots : list string) : M (list string) :=
  match shots with
  | [] => ret []
  | shot :: shots' =>
      match shot with
      | EmptyString => raise IndexError
      | String c _ =>
          do rest <- keep_serves shots';
          ret (if in_456 c then shot :: rest else rest)
      end
  end.

Definition build_serves_opponent : M unit :=
  do records <- gets shots_opo_com;
  do firsts <- first_shots records;
  do serves <- keep_serves firsts;
  modify (set_serves_opponent serves).

(** The random choice on who is serving, at the top of the [for] body. *)
Definition choose_server : M unit :=
  do r <- randint_0_2;
  if Nat.eqb r 0
  then modify (set_current_prompt "X")
  else
    do serves <- gets serves_opponent;
    do s <- choice serves;
    modify (set_current_prompt s).

(** [np.random.choice(example_policy.get(current_prompt, ['5']))]. *)
Definition choose_shot : M string :=
  do π <- gets example_policy;
  do cur <- gets current_prompt;
  choice (default ["5"] (π !! cur)).

(** What one pass through the body of [while True] decides. *)
Inductive flow : Set := Break | Continue.

Section Tester.

(** [is_win] is imported from utils.py, which is not part of the notebook:
    the tester only compares its value with [1] and with [0], so it is taken
    as a function to the integers. *)
Variable is_win : string -> Z.

(** The tail of the loop body: the assignment to [current_prompt] and the
    two tests on [is_win(current_prompt)]. *)
Definition settle (next_prompt : string) : M flow :=
  modify (set_current_prompt next_prompt);;
  do cur <- gets current_prompt;
  if (is_win cur =? 1)%Z then
    do w <- gets points_won;
    modify (set_points_won (w + 1));;
    ret Break
  else if (is_win cur =? 0)%Z then
    do l <- gets points_lost;
    modify (set_points_lost (l + 1));;
    ret Break
  else ret Continue.

(** One pass through the body of [while True]. *)
Definition turn : M flow :=
  do shot <- choose_shot;
  do cur <- gets current_prompt;
  do next_prompt <- model cur shot;
  settle next_prompt.

(** The [while True] loop of one point; the value is the number of passes
    made when [break] was reached. *)
Fixpoint play_point (fuel : nat) : M nat :=
  match fuel with
  | 0 => fun _ => OutOfFuel
  | S fuel' =>
      do f <- turn;
      match f with
      | Break => ret 1
      | Continue => do n <- play_point fuel'; ret (S n)
      end
  end.

(** One iteration of [for num in range(number_of_points_played)]. *)
Definition one_point (fuel : nat) : M nat :=
  choose_server;; play_point fuel.

(** The [for] loop: [number_of_points_played] iterations in order (a count
    below zero gives an empty [range], as zero does).  [fuel] bounds each
    point's loop separately. *)
Fixpoint simulate (fuel : nat) (number_of_points_played : nat) : M unit :=
  match number_of_points_played with
  | 0 => ret tt
  | S n => one_point fuel;; simulate fuel n
  end.

(** [points_won/(points_lost + points_won)], the number the cell prints.
    Python divides two integers into the float nearest to their quotient;
    the embedding keeps the quotient itself. *)
Definition win_rate : M Q :=
  do w <- gets points_won;
  do l <- gets points_lost;
  if Nat.eqb (l + w) 0
  then raise ZeroDivisionError
  else ret (Z.of_nat w # Pos.of_nat (l + w)).

(** The globals at the top of the [for] body in iteration [k] (from [0]) of
    a run that reached the loop with globals [σ1]. *)
Inductive at_iteration (fuel : nat) (σ1 : globals) : nat -> globals -> Prop :=
  | at_first : at_iteration fuel σ1 0 σ1
  | at_next (k : nat) (σ : globals) (n : nat) (σ' : globals) :
      at_iteration fuel σ1 k σ ->
      one_point fuel σ = Ret n σ' ->
      at_iteration fuel σ1 (S k) σ'.

(** The part of the cell before the [for] loop. *)
Definition prepare (π : gmap string (list string)) : M unit :=
  modify (set_example_policy π);;
  build_serves_opponent;;
  modify (set_points_won 0);;
  modify (set_points_lost 0).

(** The whole cell. *)
Definition tester (fuel : nat) (π : gmap string (list string))
    (number_of_points_played : nat) : M Q :=
  prepare π;;
  simulate fuel number_of_points_played;;
  win_rate.

End Tester.

(** ** Cell 11: the interactive loop *)

(** How a session at the keyboard stands once the lines typed so far are
    used up: the loop reached a [break], the cell stopped on an exception,
    or [input()] is waiting for the next line.  Each carries the lines
    printed so far, in order. *)
Inductive session : Type :=
  | Ended (printed : list string) (σ : globals)
  | Crashed (printed : list string) (e : exn) (σ : globals)
  | Waiting (printed : list string) (σ : globals).

Section Interactive.

Variable is_win : string -> Z.

(** The [while True] loop of cell 11 fed with the lines in [typed]; every
    pass reads one line.  The query itself never runs out of fuel, so its
    third outcome does not arise. *)
Fixpoint interactive_loop (typed printed : list string) (σ : globals)
  : session :=
  match typed with
  | [] => Waiting printed σ
  | shot :: typed' =>
      match model (current_prompt σ) shot σ with
      | Ret next_prompt σ1 =>
          let printed1 := (printed ++ [next_prompt])%list in
          let σ2 := set_current_prompt next_prompt σ1 in
          if (is_win next_prompt =? 1)%Z then
            Ended (printed1 ++ ["Point won!"])%list σ2
          else if (is_win next_prompt =? 0)%Z then
            Ended (printed1 ++ ["Point lost!"])%list σ2
          else interactive_loop typed' printed1 σ2
      | Exc e σ1 => Crashed printed e σ1
      | OutOfFuel => Waiting printed σ
      end
  end.

(** The whole cell: [current_prompt = 'X'], then the loop. *)
Definition interactive (typed : list string) (σ : globals) : session :=
  interactive_loop typed [] (set_current_prompt "X" σ).

End Interactive.

(** The globals a session stands with. *)
Definition session_state (r : session) : globals :=
  match r with
  | Ended _ σ => σ
  | Crashed _ _ σ => σ
  | Waiting _ σ => σ
  end.

(** ** Predicates on the globals *)

(** The globals the tester's loop only reads: the two vocabularies, the
    table, the historical records, the threshold, the policy and the list of
    serves. *)
Definition same_inputs (σ σ' : globals) : Prop :=
  poss_prompts σ' = poss_prompts σ /\
  all_shots σ' = all_shots σ /\
  Model σ' = Model σ /\
  shots_opo_com σ' = shots_opo_com σ /\
  threshold σ' = threshold σ /\
  example_policy σ' = example_policy σ /\
  serves_opponent σ' = serves_opponent σ.

(** Exactly one of the two counters went up, by one. *)
Definition counted_one (σ σ' : globals) : Prop :=
  (points_won σ' = S (points_won σ) /\ points_lost σ' = points_lost σ) \/
  (points_won σ' = points_won σ /\ points_lost σ' = S (points_lost σ)).

(** Nothing but the random state moved. *)
Definition drew (σ σ' : globals) : Prop :=
  exists g, σ' = set_random_state g σ.

(** Two notebooks set up alike for a run of the tester: the same
    vocabularies, table, records and threshold, and the same random state.
    The counters, the current prompt, the list of serves and the policy left
    over from earlier cells may differ. *)
Definition same_setup (σ σ' : globals) : Prop :=
  poss_prompts σ' = poss_prompts σ /\
  all_shots σ' = all_shots σ /\
  Model σ' = Model σ /\
  shots_opo_com σ' = shots_opo_com σ /\
  threshold σ' = threshold σ /\
  random_state σ' = random_state σ.

(** Every recorded continuation is a possible prompt. *)
Definition table_closed (σ : globals) : Prop :=
  forall i j x, x ∈ Model σ i j -> x ∈ poss_prompts σ.

(** Every entry of the policy is a non-empty list of allowed shots. *)
Definition policy_playable (π : gmap string (list string))
    (shots : list string) : Prop :=
  forall p l, π !! p = Some l -> l <> [] /\ forall s, s ∈ l -> s ∈ shots.

(** The globals the loop over the points can run on without an exception:
    the three tokens the cell writes itself are in the vocabularies, the
    threshold is not negative, the table is closed, the policy is playable
    and the list of serves is a non-empty list of possible prompts. *)
Definition well_configured (σ : globals) : Prop :=
  "X" ∈ poss_prompts σ /\
  "n@" ∈ poss_prompts σ /\
  "5" ∈ all_shots σ /\
  (0 <= threshold σ)%Z /\
  table_closed σ /\
  policy_playable (example_policy σ) (all_shots σ) /\
  serves_opponent σ <> [] /\
  (forall s, s ∈ serves_opponent σ -> s ∈ poss_prompts σ).

(** A record the comprehension of cell 13 can read: it has a first shot and
    the first shot has a first character. *)
Definition usable_record (sh : list string) : bool :=
  match sh with
  | String _ _ :: _ => true
  | _ => false
  end.

(** [shot[0] in '456'] for a shot that has a first character. *)
Definition starts_456 (shot : string) : bool :=
  match shot with
  | String c _ => in_456 c
  | EmptyString => false
  end.

(** The first shots that begin with ['4'], ['5'] or ['6'], in the order of
    the records and with their repetitions. *)
Definition serves_of (records : list (list string)) : list string :=
  List.filter starts_456 (List.map (hd "") records).

(** A serve of the opponent taken from the historical records: the first
    shot of some record, starting with ['4'], ['5'] or ['6']. *)
Definition historical_serve (σ : globals) (s : string) : Prop :=
  (exists sh, sh ∈ shots_opo_com σ /\ head sh = Some s) /\
  (exists c rest, s = String c rest /\
     (c = "4"%char \/ c = "5"%char \/ c = "6"%char)).

(** ** A small court for running the cells *)

Module Sample.

(** Twelve prompts; the shots are the prompts without the waiting token and
    the termination tokens, as the notebook says of the two pickled lists. *)
Definition prompts : list string :=
  ["X"; "4"; "5"; "6"; "f1"; "f3"; "b2"; "b3"; "v1"; "f1*"; "*"; "n@"].

Definition shots : list string :=
  ["4"; "5"; "6"; "f1"; "f3"; "b2"; "b3"; "v1"].

(** A table given by its non-empty buckets, read by position. *)
Fixpoint bucket (rows : list (string * string * list string))
    (p s : string) : list string :=
  match rows with
  | [] => []
  | (p', s', l) :: rows' =>
      if decide (p = p' ∧ s = s') then l else bucket rows' p s
  end.

Definition table (rows : list (string * string * list string))
  : nat -> nat -> list string :=
  fun i j =>
    match prompts !! i, shots !! j with
    | Some p, Some s => bucket rows p s
    | _, _ => []
    end.

(** The policy written in cell 13. *)
Definition policy : gmap string (list string) :=
  <["f3" := ["b2"; "b2"; "b3"; "v1"]]> (<["f1" := ["f1"]]> ∅).

Definition records : list (list string) :=
  [["5"; "f1"]; ["f3"; "b2"]; ["6"; "f3"]; ["4"]; ["5"; "f3"]].

(** A stand-in for [utils.is_win] on this vocabulary, after the notebook's
    account of the termination tokens: ['*'] alone is the player's own
    winning shot, ['f1*'] is a winning forehand of the opponent, and ['@']
    marks the player's unforced error. *)
Definition is_win (tok : string) : Z :=
  if decide (tok = "*") then 1
  else if decide (tok = "f1*") then 0
  else if decide (tok = "n@") then 0
  else (-1).

Definition world (rows : list (string * string * list string)) (thr : Z)
    (start : string) (t : nat -> nat) : globals :=
  {| poss_prompts := prompts; all_shots := shots; Model := table rows;
     shots_opo_com := records; threshold := thr; example_policy := policy;
     serves_opponent := ["5"; "6"; "4"; "5"];
     points_won := 0; points_lost := 0;
     current_prompt := start; random_state := Rng t 0 |}.

(** A court where points end. *)
Definition court_rows : list (string * string * list string) :=
  [("X", "5", ["f1"; "f3"; "f3"]);
   ("f3", "b2", ["f1*"; "*"; "f3"]);
   ("f3", "b3", ["*"]);
   ("4", "5", ["n@"; "n@"])].

Definition court : globals := world court_rows 1 "X" (fun n => n).

(** The same court under another seed. *)
Definition court' : globals :=
  world court_rows 1 "X" (fun n => 2 * n + n / 2).

(** A court where the cell's own policy answers ['f1'] with ['f1'] and the
    table answers that with ['f1'] again. *)
Definition rally_rows : list (string * string * list string) :=
  [("X", "5", ["f1"; "f1"]);
   ("f1", "f1", ["f1"; "f1"])].

Definition rally (t : nat -> nat) (c : nat) (p : string) : globals :=
  {| poss_prompts := prompts; all_shots := shots; Model := table rally_rows;
     shots_opo_com := records; threshold := 1; example_policy := policy;
     serves_opponent := ["5"; "6"; "4"; "5"];
     points_won := 0; points_lost := 0;
     current_prompt := p; random_state := Rng t c |}.

(** The notebook after an earlier run of the tester: stale counters, a
    stale prompt and a stale list of serves. *)
Definition court_used : globals :=
  {| poss_prompts := prompts; all_shots := shots; Model := table court_rows;
     shots_opo_com := records; threshold := 1; example_policy := ∅;
     serves_opponent := [];
     points_won := 17; points_lost := 4;
     current_prompt := "n@"; random_state := Rng (fun n => 2 * n + n / 2) 0 |}.

(** The globals a computation ended with. *)
Definition state_of {A} (σ : globals) (m : M A) : globals :=
  match m σ with
  | Ret _ σ' => σ'
  | Exc _ σ' => σ'
  | OutOfFuel => σ
  end.

End Sample.

(** ** Facts about the library calls *)

Lemma index_Some_lookup (x : string) (l : list string) (i : nat) :
  index x l = Some i -> l !! i = Some x.
Proof.
  revert i. induction l as [|y l IH]; intros i; simpl; [discriminate|].
  destruct (decide (x = y)) as [->|Hne].
  - intros [= <-]. reflexivity.
  - destruct (index x l) as [k|] eqn:E; simpl; [|discriminate].
    intros [= <-]. simpl. apply IH. reflexivity.
Qed.

Lemma index_None (x : string) (l : list string) :
  index x l = None <-> x ∉ l.
Proof.
  induction l as [|y l IH]; simpl.
  - split; [intros _; apply not_elem_of_nil | reflexivity].
  - destruct (decide (x = y)) as [->|Hne].
    + split; [discriminate|]. intros H. exfalso. apply H. left.
    + rewrite not_elem_of_cons. destruct (index x l); simpl.
      * split; [discriminate|]. intros [_ H]. apply IH in H. discriminate.
      * split; [|reflexivity]. intros _. split; [exact Hne|]. apply IH.
        reflexivity.
Qed.

Lemma index_elem_of (x : string) (l : list string) :
  x ∈ l -> exists i, index x l = Some i.
Proof.
  intros H. destruct (index x l) as [i|] eqn:E; [eauto|].
  apply index_None in E. contradiction.
Qed.

Lemma randbelow_lt (n : nat) (g : rng) : 0 < n -> fst (randbelow n g) < n.
Proof. intros H. simpl. apply Nat.mod_upper_bound. lia. Qed.

(** [choice] on a non-empty sequence: the element at the drawn position. *)
Lemma choice_spec (l : list string) (σ : globals) :
  l <> [] ->
  exists x,
    l !! fst (randbelow (length l) (random_state σ)) = Some x /\
    choice l σ
    = Ret x (set_random_state (snd (randbelow (length l) (random_state σ))) σ).
Proof.
  intros Hl. destruct l as [|d l']; [contradiction|].
  set (l := d :: l') in *.
  assert (Hlt : fst (randbelow (length l) (random_state σ)) < length l).
  { apply randbelow_lt. simpl. lia. }
  destruct (lookup_lt_is_Some_2 l _ Hlt) as [x Hx].
  exists x. split; [exact Hx|].
  unfold choice. fold l.
  destruct (randbelow (length l) (random_state σ)) as [i g] eqn:E.
  simpl in *. f_equal. apply nth_lookup_Some with (d := d) in Hx. exact Hx.
Qed.

(** The transition query once both subscripts are known. *)
Lemma model_at (σ : globals) (prompt shot : string) (i j : nat) :
  index prompt (poss_prompts σ) = Some i ->
  index shot (all_shots σ) = Some j ->
  model prompt shot σ
  = if (threshold σ <? Z.of_nat (length (Model σ i j)))%Z
    then choice (Model σ i j) σ
    else Ret "n@" σ.
Proof.
  intros Hi Hj. unfold model, bind, gets, list_index. simpl.
  rewrite Hi. simpl. rewrite Hj. simpl.
  destruct (threshold σ <? Z.of_nat (length (Model σ i j)))%Z; reflexivity.
Qed.

(** ** Cell 9: the transition query *)

(** A shot outside [all_shots] makes the second subscript raise: the query
    never reaches the test on the bucket. *)
Lemma unlisted_shot_ValueError (σ : globals) (prompt shot : string) :
  prompt ∈ poss_prompts σ ->
  shot ∉ all_shots σ ->
  model prompt shot σ = Exc ValueError σ.
Proof.
  intros Hp Hs. apply index_elem_of in Hp as [i Hi]. apply index_None in Hs.
  unfold model, bind, gets, list_index. simpl. rewrite Hi. simpl.
  rewrite Hs. reflexivity.
Qed.

(** C1, at a failing input.  The shot ['zz'] is not in the allowed shots and
    ['X'] is a possible prompt: [model('X', 'zz')] raises [ValueError]
    instead of answering ['n@'], and the tester run with the policy
    [{'X': ['zz']}] stops with that exception on its first point, with no
    point counted. *)
Theorem model_unlisted_shot_raises :
  "X" ∈ poss_prompts Sample.court /\
  ("zz" ∉ all_shots Sample.court) /\
  model "X" "zz" Sample.court = Exc ValueError Sample.court /\
  exists σ',
    tester Sample.is_win 10 (<["X" := ["zz"]]> ∅) 3 Sample.court
    = Exc ValueError σ' /\
    points_won σ' = 0 /\ points_lost σ' = 0.
Proof.
  assert (Hp : "X" ∈ poss_prompts Sample.court) by (simpl; left).
  assert (Hs : "zz" ∉ all_shots Sample.court) by (apply index_None; reflexivity).
  split; [exact Hp|]. split; [exact Hs|].
  split; [apply unlisted_shot_ValueError; assumption|].
  eexists. split; [vm_compute; reflexivity|]. split; reflexivity.
Qed.

(** C2.  When the bucket of the pair is empty and the threshold is not
    negative, [model] answers ['n@'] and leaves every global, the random
    state included, as it was: no draw is made. *)
Theorem model_unseen_pair_fallback (σ : globals) (prompt shot : string)
    (i j : nat) :
  index prompt (poss_prompts σ) = Some i ->
  index shot (all_shots σ) = Some j ->
  Model σ i j = [] ->
  (0 <= threshold σ)%Z ->
  model prompt shot σ = Ret "n@" σ.
Proof.
  intros Hi Hj Hempty Hthr. rewrite (model_at σ prompt shot i j Hi Hj).
  rewrite Hempty.
  replace (threshold σ <? Z.of_nat (length (@nil string)))%Z with false
    by (symmetry; apply Z.ltb_ge; simpl; lia).
  reflexivity.
Qed.

Lemma model_unseen_pair_fallback_witness :
  index "f1" (poss_prompts Sample.court) = Some 4 /\
  index "f1" (all_shots Sample.court) = Some 3 /\
  Model Sample.court 4 3 = [] /\
  (0 <= threshold Sample.court)%Z /\
  model "f1" "f1" Sample.court = Ret "n@" Sample.court.
Proof.
  assert (Hthr : (0 <= threshold Sample.court)%Z) by (simpl; lia).
  repeat (split; [first [reflexivity | exact Hthr]|]).
  apply (model_unseen_pair_fallback Sample.court "f1" "f1" 4 3);
    first [reflexivity | exact Hthr].
Defined.

(** C3 as stated fails twice.  First: the bucket of [('4', '5')] on the
    sample court is [['n@'; 'n@']], longer than the threshold [1], and the
    value sampled from it is the token ['n@'] itself.  Second: with the
    threshold [-1] the empty bucket of [('f1', 'f1')] is longer than the
    threshold, and sampling from it raises [ValueError]. *)
Lemma model_sampled_bucket_counterexample :
  (index "4" (poss_prompts Sample.court) = Some 1 /\
   index "5" (all_shots Sample.court) = Some 1 /\
   (threshold Sample.court
    < Z.of_nat (length (Model Sample.court 1 1)))%Z /\
   exists σ', model "4" "5" Sample.court = Ret "n@" σ') /\
  (let σ := Sample.world Sample.court_rows (-1) "X" (fun n => n) in
   index "f1" (poss_prompts σ) = Some 4 /\
   index "f1" (all_shots σ) = Some 3 /\
   (threshold σ < Z.of_nat (length (Model σ 4 3)))%Z /\
   model "f1" "f1" σ = Exc ValueError σ).
Proof.
  split.
  - repeat (split; [first [reflexivity | simpl; lia]|]).
    eexists. vm_compute. reflexivity.
  - repeat (split; [first [reflexivity | simpl; lia]|]).
    reflexivity.
Qed.

(** C3, amended.  When the threshold is not negative and the bucket of the
    pair is longer than it, [model] makes one draw below the bucket's length
    and answers the recorded continuation at that position: a member of the
    bucket, which is ['n@'] only if ['n@'] is recorded there; and every
    position of the bucket is the answer for some value of the draw. *)
Theorem model_samples_bucket (σ : globals) (prompt shot : string)
    (i j : nat) :
  index prompt (poss_prompts σ) = Some i ->
  index shot (all_shots σ) = Some j ->
  (0 <= threshold σ)%Z ->
  (threshold σ < Z.of_nat (length (Model σ i j)))%Z ->
  (exists x,
     Model σ i j
       !! fst (randbelow (length (Model σ i j)) (random_state σ)) = Some x /\
     x ∈ Model σ i j /\
     (x = "n@" -> "n@" ∈ Model σ i j) /\
     model prompt shot σ
     = Ret x (set_random_state
                (snd (randbelow (length (Model σ i j)) (random_state σ))) σ))
  /\
  (forall k y, Model σ i j !! k = Some y ->
     forall c, exists g,
       model prompt shot (set_random_state (Rng (fun _ => k) c) σ)
       = Ret y (set_random_state g σ)).
Proof.
  intros Hi Hj Hthr Hlen.
  assert (Hne : Model σ i j <> []).
  { intros E. rewrite E in Hlen. simpl in Hlen. lia. }
  split.
  - rewrite (model_at σ prompt shot i j Hi Hj).
    apply Z.ltb_lt in Hlen. rewrite Hlen.
    destruct (choice_spec (Model σ i j) σ Hne) as (x & Hx & Hc).
    exists x. split; [exact Hx|].
    assert (Hin : x ∈ Model σ i j) by (eapply list_elem_of_lookup_2; eauto).
    split; [exact Hin|]. split; [intros <-; exact Hin | exact Hc].
  - intros k y Hk c.
    set (σk := set_random_state (Rng (fun _ => k) c) σ).
    rewrite (model_at σk prompt shot i j Hi Hj).
    change (threshold σk) with (threshold σ).
    change (Model σk) with (Model σ).
    apply Z.ltb_lt in Hlen. rewrite Hlen.
    destruct (choice_spec (Model σ i j) σk Hne) as (x & Hx & Hc).
    rewrite Hc. simpl in Hx.
    assert (Hklt : k < length (Model σ i j)) by (eapply lookup_lt_Some; eauto).
    rewrite Nat.mod_small in Hx by exact Hklt.
    rewrite Hk in Hx. injection Hx as <-.
    eexists. unfold σk. reflexivity.
Qed.

Lemma model_samples_bucket_witness :
  index "X" (poss_prompts Sample.court) = Some 0 /\
  index "5" (all_shots Sample.court) = Some 1 /\
  (0 <= threshold Sample.court)%Z /\
  (threshold Sample.court < Z.of_nat (length (Model Sample.court 0 1)))%Z /\
  exists x, x ∈ Model Sample.court 0 1 /\
    exists σ', model "X" "5" Sample.court = Ret x σ'.
Proof.
  assert (H0 : (0 <= threshold Sample.court)%Z) by (simpl; lia).
  assert (H1 : (threshold Sample.court
                < Z.of_nat (length (Model Sample.court 0 1)))%Z)
    by (simpl; lia).
  repeat (split; [first [reflexivity | exact H0 | exact H1]|]).
  destruct (model_samples_bucket Sample.court "X" "5" 0 1
              eq_refl eq_refl H0 H1) as [(x & _ & Hin & _ & Hm) _].
  exists x. split; [exact Hin|]. eexists. exact Hm.
Defined.

(** ** The monad *)

Lemma bind_Ret {A B} (m : M A) (k : A -> M B) (σ : globals) (b : B)
    (σ' : globals) :
  bind m k σ = Ret b σ' ->
  exists a σ1, m σ = Ret a σ1 /\ k a σ1 = Ret b σ'.
Proof.
  unfold bind. destruct (m σ) as [a σ1|e σ1|]; try discriminate.
  intros H. exists a, σ1. split; [reflexivity | exact H].
Qed.

Lemma bind_Exc {A B} (m : M A) (k : A -> M B) (σ : globals) (e : exn)
    (σ' : globals) :
  bind m k σ = Exc e σ' ->
  m σ = Exc e σ' \/ exists a σ1, m σ = Ret a σ1 /\ k a σ1 = Exc e σ'.
Proof.
  unfold bind. destruct (m σ) as [a σ1|e1 σ1|]; try discriminate.
  - intros H. right. exists a, σ1. split; [reflexivity | exact H].
  - intros [= -> ->]. left. reflexivity.
Qed.

Lemma bind_ends {A B} (m : M A) (k : A -> M B) (σ : globals) :
  bind m k σ <> OutOfFuel ->
  m σ <> OutOfFuel /\ forall a σ1, m σ = Ret a σ1 -> k a σ1 <> OutOfFuel.
Proof.
  unfold bind. destruct (m σ) as [a σ1|e1 σ1|]; intros H.
  - split; [discriminate|]. intros a' σ' [= <- <-]. exact H.
  - split; [discriminate|]. discriminate.
  - contradiction.
Qed.

Lemma drew_refl (σ : globals) : drew σ σ.
Proof. exists (random_state σ). destruct σ. reflexivity. Qed.

Lemma drew_trans (σ1 σ2 σ3 : globals) : drew σ1 σ2 -> drew σ2 σ3 -> drew σ1 σ3.
Proof. intros [g ->] [g' ->]. exists g'. reflexivity. Qed.

Lemma drew_same_inputs (σ σ' : globals) : drew σ σ' -> same_inputs σ σ'.
Proof. intros [g ->]. repeat split. Qed.

Lemma same_inputs_refl (σ : globals) : same_inputs σ σ.
Proof. repeat split. Qed.

Lemma same_inputs_trans (σ1 σ2 σ3 : globals) :
  same_inputs σ1 σ2 -> same_inputs σ2 σ3 -> same_inputs σ1 σ3.
Proof.
  unfold same_inputs. intros H1 H2.
  destruct H1 as (a1 & a2 & a3 & a4 & a5 & a6 & a7).
  destruct H2 as (b1 & b2 & b3 & b4 & b5 & b6 & b7).
  repeat split; congruence.
Qed.

(** ** What the library calls and the query touch *)

Lemma choice_drew (l : list string) (σ : globals) :
  match choice l σ with
  | Ret _ σ' => drew σ σ'
  | Exc _ σ' => σ' = σ
  | OutOfFuel => False
  end.
Proof.
  unfold choice. destruct l as [|d l']; [reflexivity|].
  destruct (randbelow _ _) as [i g]. exists g. reflexivity.
Qed.

Lemma model_drew (prompt shot : string) (σ : globals) :
  match model prompt shot σ with
  | Ret _ σ' => drew σ σ'
  | Exc _ σ' => σ' = σ
  | OutOfFuel => False
  end.
Proof.
  unfold model, bind, gets, list_index. simpl.
  destruct (index prompt (poss_prompts σ)) as [i|]; simpl; [|reflexivity].
  destruct (index shot (all_shots σ)) as [j|]; simpl; [|reflexivity].
  destruct (threshold σ <? _)%Z.
  - apply choice_drew.
  - apply drew_refl.
Qed.

Lemma choose_shot_drew (σ : globals) :
  match choose_shot σ with
  | Ret _ σ' => drew σ σ'
  | Exc _ σ' => σ' = σ
  | OutOfFuel => False
  end.
Proof. unfold choose_shot, bind, gets. simpl. apply choice_drew. Qed.

(** ** One pass and one point *)

Section TesterFacts.

Variable is_win : string -> Z.

Lemma settle_eq (next_prompt : string) (σ : globals) :
  settle is_win next_prompt σ
  = if (is_win next_prompt =? 1)%Z then
      Ret Break (set_points_won (points_won σ + 1)
                   (set_current_prompt next_prompt σ))
    else if (is_win next_prompt =? 0)%Z then
      Ret Break (set_points_lost (points_lost σ + 1)
                   (set_current_prompt next_prompt σ))
    else Ret Continue (set_current_prompt next_prompt σ).
Proof.
  unfold settle, bind, gets, modify. simpl.
  destruct (is_win next_prompt =? 1)%Z; [reflexivity|].
  destruct (is_win next_prompt =? 0)%Z; reflexivity.
Qed.

(** A pass is a shot, a query and the settling of the answer. *)
Lemma turn_unfold (σ : globals) :
  turn is_win σ
  = match choose_shot σ with
    | Ret shot σa =>
        match model (current_prompt σa) shot σa with
        | Ret next_prompt σb => settle is_win next_prompt σb
        | Exc e σb => Exc e σb
        | OutOfFuel => OutOfFuel
        end
    | Exc e σa => Exc e σa
    | OutOfFuel => OutOfFuel
    end.
Proof.
  unfold turn, bind, gets.
  destruct (choose_shot σ) as [shot σa|e σa|]; reflexivity.
Qed.

(** The shot and the query only draw. *)
Lemma turn_shape (σ : globals) :
  (exists e, turn is_win σ = Exc e σ) \/
  (exists σ1 next_prompt,
     drew σ σ1 /\ turn is_win σ = settle is_win next_prompt σ1) \/
  (exists e σ1, drew σ σ1 /\ turn is_win σ = Exc e σ1).
Proof.
  rewrite turn_unfold.
  pose proof (choose_shot_drew σ) as Hs.
  destruct (choose_shot σ) as [shot σa|e σa|]; [| |contradiction].
  - pose proof (model_drew (current_prompt σa) shot σa) as Hm.
    destruct (model (current_prompt σa) shot σa) as [nxt σb|e σb|];
      [| |contradiction].
    + right. left. exists σb, nxt. split; [|reflexivity].
      eapply drew_trans; eassumption.
    + right. right. subst σb. exists e, σa. split; [exact Hs | reflexivity].
  - left. subst σa. exists e. reflexivity.
Qed.

Lemma turn_ends (σ : globals) : turn is_win σ <> OutOfFuel.
Proof.
  destruct (turn_shape σ) as [[e H]|[(σ1 & nxt & _ & H)|(e & σ1 & _ & H)]];
    rewrite H; try discriminate.
  rewrite settle_eq.
  destruct (is_win nxt =? 1)%Z; [discriminate|].
  destruct (is_win nxt =? 0)%Z; discriminate.
Qed.

Lemma turn_Exc (σ : globals) (e : exn) (σ' : globals) :
  turn is_win σ = Exc e σ' -> drew σ σ'.
Proof.
  destruct (turn_shape σ) as [[e1 H]|[(σ1 & nxt & Hd & H)|(e1 & σ1 & Hd & H)]];
    rewrite H.
  - intros [= _ <-]. apply drew_refl.
  - rewrite settle_eq.
    destruct (is_win nxt =? 1)%Z; [discriminate|].
    destruct (is_win nxt =? 0)%Z; discriminate.
  - intros [= _ <-]. exact Hd.
Qed.

Lemma turn_Break (σ σ' : globals) :
  turn is_win σ = Ret Break σ' ->
  same_inputs σ σ' /\ counted_one σ σ' /\
  (is_win (current_prompt σ') = 1 \/ is_win (current_prompt σ') = 0)%Z.
Proof.
  destruct (turn_shape σ) as [[e1 H]|[(σ1 & nxt & Hd & H)|(e1 & σ1 & Hd & H)]];
    rewrite H; try discriminate.
  rewrite settle_eq. destruct Hd as [g ->].
  destruct (Z.eqb_spec (is_win nxt) 1) as [E1|E1].
  - intros [= <-]. split; [repeat split|]. split.
    + left. simpl. split; [lia | reflexivity].
    + left. exact E1.
  - destruct (Z.eqb_spec (is_win nxt) 0) as [E0|E0]; [|discriminate].
    intros [= <-]. split; [repeat split|]. split.
    + right. simpl. split; [reflexivity | lia].
    + right. exact E0.
Qed.

Lemma turn_Continue (σ σ' : globals) :
  turn is_win σ = Ret Continue σ' ->
  same_inputs σ σ' /\
  points_won σ' = points_won σ /\ points_lost σ' = points_lost σ /\
  is_win (current_prompt σ') <> 1%Z /\ is_win (current_prompt σ') <> 0%Z.
Proof.
  destruct (turn_shape σ) as [[e1 H]|[(σ1 & nxt & Hd & H)|(e1 & σ1 & Hd & H)]];
    rewrite H; try discriminate.
  rewrite settle_eq. destruct Hd as [g ->].
  destruct (Z.eqb_spec (is_win nxt) 1) as [E1|E1]; [discriminate|].
  destruct (Z.eqb_spec (is_win nxt) 0) as [E0|E0]; [discriminate|].
  intros [= <-]. split; [repeat split|]. simpl. auto.
Qed.

(** Unfolding the loop by one pass. *)
Lemma play_point_S (fuel : nat) (σ : globals) :
  play_point is_win (S fuel) σ
  = match turn is_win σ with
    | Ret Break σ' => Ret 1 σ'
    | Ret Continue σ' =>
        match play_point is_win fuel σ' with
        | Ret n σ'' => Ret (S n) σ''
        | Exc e σ'' => Exc e σ''
        | OutOfFuel => OutOfFuel
        end
    | Exc e σ' => Exc e σ'
    | OutOfFuel => OutOfFuel
    end.
Proof.
  simpl. unfold bind at 1.
  destruct (turn is_win σ) as [[|] σ'|e σ'|]; reflexivity.
Qed.

(** A point that ends: the inputs are untouched, one counter went up by
    one, the last prompt is terminal and the number of passes is within the
    fuel. *)
Lemma play_point_Ret (fuel : nat) (σ : globals) (n : nat) (σ' : globals) :
  play_point is_win fuel σ = Ret n σ' ->
  same_inputs σ σ' /\ counted_one σ σ' /\
  (is_win (current_prompt σ') = 1 \/ is_win (current_prompt σ') = 0)%Z /\
  1 <= n <= fuel.
Proof.
  revert σ n. induction fuel as [|fuel IH]; intros σ n; [discriminate|].
  rewrite play_point_S.
  destruct (turn is_win σ) as [[|] σ1|e σ1|] eqn:Ht; try discriminate.
  - intros [= <- <-]. apply turn_Break in Ht as (Hi & Hc & Hw).
    repeat split; try assumption; try apply Hi; lia.
  - destruct (play_point is_win fuel σ1) as [m σ2|e σ2|] eqn:Hp;
      try discriminate.
    intros [= <- <-]. apply turn_Continue in Ht as (Hi & Hw & Hl & _).
    apply IH in Hp as (Hi' & Hc & Hterm & Hn).
    split; [eapply same_inputs_trans; eassumption|].
    split; [|split; [exact Hterm | lia]].
    unfold counted_one in *. rewrite <- Hw, <- Hl. exact Hc.
Qed.

(** A point stopped by an exception: no counter moved. *)
Lemma play_point_Exc (fuel : nat) (σ : globals) (e : exn) (σ' : globals) :
  play_point is_win fuel σ = Exc e σ' ->
  same_inputs σ σ' /\
  points_won σ' = points_won σ /\ points_lost σ' = points_lost σ.
Proof.
  revert σ. induction fuel as [|fuel IH]; intros σ; [discriminate|].
  rewrite play_point_S.
  destruct (turn is_win σ) as [[|] σ1|e1 σ1|] eqn:Ht; try discriminate.
  - destruct (play_point is_win fuel σ1) as [m σ2|e2 σ2|] eqn:Hp;
      try discriminate.
    intros [= <- <-]. apply turn_Continue in Ht as (Hi & Hw & Hl & _).
    apply IH in Hp as (Hi' & Hw' & Hl').
    split; [eapply same_inputs_trans; eassumption|]. split; congruence.
  - intros [= <- <-]. apply turn_Exc in Ht as [g ->].
    split; [repeat split|]. split; reflexivity.
Qed.

(** More fuel does not change a point that ended. *)
Lemma play_point_more_fuel (fuel fuel' : nat) (σ : globals) :
  play_point is_win fuel σ <> OutOfFuel ->
  fuel <= fuel' ->
  play_point is_win fuel' σ = play_point is_win fuel σ.
Proof.
  revert fuel' σ. induction fuel as [|fuel IH]; intros fuel' σ Hend Hle.
  - exfalso. apply Hend. reflexivity.
  - destruct fuel' as [|fuel']; [lia|].
    rewrite !play_point_S. rewrite play_point_S in Hend.
    destruct (turn is_win σ) as [[|] σ1|e1 σ1|]; try reflexivity.
    rewrite (IH fuel' σ1); [reflexivity| |lia].
    intros E. rewrite E in Hend. contradiction.
Qed.

(** A point that ends after [n] passes is still running under any budget
    below [n]. *)
Lemma play_point_less_fuel (fuel : nat) (σ : globals) (n : nat)
    (σ' : globals) :
  play_point is_win fuel σ = Ret n σ' ->
  forall fuel', fuel' < n -> play_point is_win fuel' σ = OutOfFuel.
Proof.
  revert σ n. induction fuel as [|fuel IH]; intros σ n; [discriminate|].
  rewrite play_point_S.
  destruct (turn is_win σ) as [[|] σ1|e σ1|] eqn:Ht; try discriminate.
  - intros [= <- <-] fuel' Hlt. assert (fuel' = 0) as -> by lia. reflexivity.
  - destruct (play_point is_win fuel σ1) as [m σ2|e σ2|] eqn:Hp;
      try discriminate.
    intros [= <- <-] fuel' Hlt. destruct fuel' as [|fuel']; [reflexivity|].
    rewrite play_point_S, Ht. rewrite (IH _ _ Hp fuel'); [reflexivity | lia].
Qed.

(** ** The server, the loop over the points and the cell *)

Lemma bind_agree {A B} (m m' : M A) (k k' : A -> M B) (σ : globals) :
  m' σ = m σ ->
  (forall a σ1, m σ = Ret a σ1 -> k' a σ1 = k a σ1) ->
  bind m' k' σ = bind m k σ.
Proof.
  intros Hm Hk. unfold bind. rewrite Hm.
  destruct (m σ) as [a σ1|e σ1|]; try reflexivity.
  apply Hk. reflexivity.
Qed.

Lemma choose_server_eq (σ : globals) :
  choose_server σ
  = let σ1 := set_random_state (snd (randbelow 2 (random_state σ))) σ in
    if Nat.eqb (fst (randbelow 2 (random_state σ))) 0
    then Ret tt (set_current_prompt "X" σ1)
    else match choice (serves_opponent σ) σ1 with
         | Ret s σ2 => Ret tt (set_current_prompt s σ2)
         | Exc e σ2 => Exc e σ2
         | OutOfFuel => OutOfFuel
         end.
Proof.
  unfold choose_server, bind, randint_0_2, gets, modify.
  destruct (randbelow 2 (random_state σ)) as [r g]. simpl.
  destruct (Nat.eqb r 0); reflexivity.
Qed.

Lemma choose_server_ends (σ : globals) : choose_server σ <> OutOfFuel.
Proof.
  rewrite choose_server_eq. simpl.
  destruct (Nat.eqb _ 0); [discriminate|].
  match goal with |- context [choice ?l ?s] =>
    pose proof (choice_drew l s) as H; destruct (choice l s) end;
    [discriminate | discriminate | contradiction].
Qed.

Lemma choose_server_Ret (σ : globals) (u : unit) (σ' : globals) :
  choose_server σ = Ret u σ' ->
  same_inputs σ σ' /\
  points_won σ' = points_won σ /\ points_lost σ' = points_lost σ /\
  (current_prompt σ' = "X" \/ current_prompt σ' ∈ serves_opponent σ).
Proof.
  rewrite choose_server_eq. simpl.
  destruct (Nat.eqb _ 0).
  - intros [= _ <-]. split; [repeat split|]. simpl. auto.
  - set (σ1 := set_random_state _ σ).
    destruct (serves_opponent σ) as [|d l'] eqn:El; [discriminate|].
    destruct (choice_spec (d :: l') σ1 ltac:(discriminate)) as (x & Hx & Hc).
    rewrite Hc. intros [= _ <-]. split; [repeat split|]. simpl.
    split; [reflexivity|]. split; [reflexivity|]. right.
    eapply list_elem_of_lookup_2. exact Hx.
Qed.

Lemma choose_server_Exc (σ : globals) (e : exn) (σ' : globals) :
  choose_server σ = Exc e σ' -> drew σ σ'.
Proof.
  rewrite choose_server_eq. simpl.
  destruct (Nat.eqb _ 0); [discriminate|].
  match goal with |- context [choice ?l ?s] =>
    pose proof (choice_drew l s) as H; destruct (choice l s) end;
    try discriminate.
  intros [= _ <-]. subst. eexists. reflexivity.
Qed.

Lemma one_point_Ret (fuel : nat) (σ : globals) (n : nat) (σ' : globals) :
  one_point is_win fuel σ = Ret n σ' ->
  same_inputs σ σ' /\ counted_one σ σ'.
Proof.
  unfold one_point. intros H.
  apply bind_Ret in H as ([] & σ1 & Hs & Hp).
  apply choose_server_Ret in Hs as (Hi & Hw & Hl & _).
  apply play_point_Ret in Hp as (Hi' & Hc & _).
  split; [eapply same_inputs_trans; eassumption|].
  unfold counted_one in *. rewrite <- Hw, <- Hl. exact Hc.
Qed.

Lemma one_point_Exc (fuel : nat) (σ : globals) (e : exn) (σ' : globals) :
  one_point is_win fuel σ = Exc e σ' ->
  same_inputs σ σ' /\
  points_won σ' = points_won σ /\ points_lost σ' = points_lost σ.
Proof.
  unfold one_point. intros H.
  apply bind_Exc in H as [Hs|([] & σ1 & Hs & Hp)].
  - apply choose_server_Exc in Hs as [g ->].
    split; [repeat split|]. split; reflexivity.
  - apply choose_server_Ret in Hs as (Hi & Hw & Hl & _).
    apply play_point_Exc in Hp as (Hi' & Hw' & Hl').
    split; [eapply same_inputs_trans; eassumption|]. split; congruence.
Qed.

Lemma one_point_more_fuel (fuel fuel' : nat) (σ : globals) :
  one_point is_win fuel σ <> OutOfFuel ->
  fuel <= fuel' ->
  one_point is_win fuel' σ = one_point is_win fuel σ.
Proof.
  unfold one_point. intros Hend Hle.
  apply bind_ends in Hend as [_ Hk].
  apply bind_agree; [reflexivity|].
  intros a σ1 Hs. apply play_point_more_fuel; [eauto | exact Hle].
Qed.

Lemma simulate_Ret (fuel N : nat) (σ : globals) (u : unit) (σ' : globals) :
  simulate is_win fuel N σ = Ret u σ' ->
  same_inputs σ σ' /\
  points_won σ' + points_lost σ' = points_won σ + points_lost σ + N.
Proof.
  revert σ. induction N as [|N IH]; intros σ; simpl.
  - intros [= _ <-]. split; [apply same_inputs_refl | lia].
  - intros H. apply bind_Ret in H as (n & σ1 & H1 & H2).
    apply one_point_Ret in H1 as (Hi & Hc). apply IH in H2 as (Hi' & Hsum).
    split; [eapply same_inputs_trans; eassumption|].
    destruct Hc as [[Hw Hl]|[Hw Hl]]; lia.
Qed.

Lemma simulate_Exc (fuel N : nat) (σ : globals) (e : exn) (σ' : globals) :
  simulate is_win fuel N σ = Exc e σ' ->
  same_inputs σ σ' /\
  points_won σ' + points_lost σ' < points_won σ + points_lost σ + N.
Proof.
  revert σ. induction N as [|N IH]; intros σ; simpl; [discriminate|].
  intros H. apply bind_Exc in H as [H1|(n & σ1 & H1 & H2)].
  - apply one_point_Exc in H1 as (Hi & Hw & Hl). split; [exact Hi | lia].
  - apply one_point_Ret in H1 as (Hi & Hc). apply IH in H2 as (Hi' & Hsum).
    split; [eapply same_inputs_trans; eassumption|].
    destruct Hc as [[Hw Hl]|[Hw Hl]]; lia.
Qed.

Lemma simulate_more_fuel (fuel fuel' N : nat) (σ : globals) :
  simulate is_win fuel N σ <> OutOfFuel ->
  fuel <= fuel' ->
  simulate is_win fuel' N σ = simulate is_win fuel N σ.
Proof.
  revert σ. induction N as [|N IH]; intros σ Hend Hle; [reflexivity|].
  simpl in *. apply bind_ends in Hend as [H1 Hk].
  apply bind_agree.
  - apply one_point_more_fuel; assumption.
  - intros a σ1 Ha. apply IH; [eauto | exact Hle].
Qed.

Lemma at_iteration_same_inputs (fuel : nat) (σ1 : globals) (k : nat)
    (σ : globals) :
  at_iteration is_win fuel σ1 k σ ->
  same_inputs σ1 σ /\
  points_won σ + points_lost σ = points_won σ1 + points_lost σ1 + k.
Proof.
  induction 1 as [|k σ n σ' _ [IHi IHc] Hp].
  - split; [apply same_inputs_refl | lia].
  - apply one_point_Ret in Hp as (Hi & Hc).
    split; [eapply same_inputs_trans; eassumption|].
    destruct Hc as [[Hw Hl]|[Hw Hl]]; lia.
Qed.

(** The comprehension leaves the globals alone and keeps first shots of
    records that start with ['4'], ['5'] or ['6']. *)
Lemma first_shots_Ret (rs : list (list string)) (σ : globals)
    (l : list string) (σ' : globals) :
  first_shots rs σ = Ret l σ' ->
  σ' = σ /\ forall s, s ∈ l -> exists sh, sh ∈ rs /\ head sh = Some s.
Proof.
  revert l. induction rs as [|sh rs IH]; intros l; simpl.
  - intros [= <- <-]. split; [reflexivity|]. intros s Hs.
    apply elem_of_nil in Hs. contradiction.
  - destruct sh as [|shot sh']; [discriminate|].
    intros H. apply bind_Ret in H as (rest & σ2 & H1 & H2).
    injection H2 as <- <-. apply IH in H1 as [-> Hrest].
    split; [reflexivity|]. intros s Hs. apply elem_of_cons in Hs as [->|Hs].
    + exists (shot :: sh'). split; [left | reflexivity].
    + destruct (Hrest s Hs) as (sh & Hin & Hh). exists sh.
      split; [right; exact Hin | exact Hh].
Qed.

Lemma in_456_true (c : ascii) :
  in_456 c = true -> c = "4"%char \/ c = "5"%char \/ c = "6"%char.
Proof.
  unfold in_456. intros H.
  apply orb_true_iff in H as [H|H]; [apply orb_true_iff in H as [H|H]|];
    apply bool_decide_eq_true in H; auto.
Qed.

Lemma keep_serves_Ret (shots : list string) (σ : globals) (l : list string)
    (σ' : globals) :
  keep_serves shots σ = Ret l σ' ->
  σ' = σ /\
  forall s, s ∈ l ->
    s ∈ shots /\
    exists c rest, s = String c rest /\
      (c = "4"%char \/ c = "5"%char \/ c = "6"%char).
Proof.
  revert l. induction shots as [|shot shots IH]; intros l; simpl.
  - intros [= <- <-]. split; [reflexivity|]. intros s Hs.
    apply elem_of_nil in Hs. contradiction.
  - destruct shot as [|c tl]; [discriminate|].
    intros H. apply bind_Ret in H as (rest & σ2 & H1 & H2).
    injection H2 as <- <-. apply IH in H1 as [-> Hrest].
    split; [reflexivity|]. intros s Hs.
    destruct (in_456 c) eqn:Ec.
    + apply elem_of_cons in Hs as [->|Hs].
      * split; [left|]. exists c, tl. split; [reflexivity|].
        apply in_456_true. exact Ec.
      * destruct (Hrest s Hs) as [Hin Hc]. split; [right; exact Hin | exact Hc].
    + destruct (Hrest s Hs) as [Hin Hc]. split; [right; exact Hin | exact Hc].
Qed.

Lemma prepare_Ret (π : gmap string (list string)) (σ0 : globals) (u : unit)
    (σ1 : globals) :
  prepare π σ0 = Ret u σ1 ->
  points_won σ1 = 0 /\ points_lost σ1 = 0 /\
  example_policy σ1 = π /\
  shots_opo_com σ1 = shots_opo_com σ0 /\
  (forall s, s ∈ serves_opponent σ1 -> historical_serve σ1 s).
Proof.
  unfold prepare, build_serves_opponent. intros H.
  apply bind_Ret in H as ([] & σa & Ha & H). injection Ha as <-.
  apply bind_Ret in H as ([] & σb & Hb & H).
  apply bind_Ret in Hb as (rs & σc & Hc & Hb). injection Hc as <- <-.
  apply bind_Ret in Hb as (firsts & σd & Hd & Hb).
  apply first_shots_Ret in Hd as [-> Hfirst].
  apply bind_Ret in Hb as (serves & σe & He & Hb).
  apply keep_serves_Ret in He as [-> Hserve].
  injection Hb as <-.
  apply bind_Ret in H as ([] & σf & Hf & H). injection Hf as <-.
  injection H as H. subst σ1. simpl.
  repeat (split; [reflexivity|]).
  intros s Hs. destruct (Hserve s Hs) as [Hin Hc].
  split; [apply Hfirst; exact Hin | exact Hc].
Qed.

Lemma tester_eq (fuel : nat) (π : gmap string (list string)) (N : nat)
    (σ0 : globals) :
  tester is_win fuel π N σ0
  = match prepare π σ0 with
    | Ret _ σ1 =>
        match simulate is_win fuel N σ1 with
        | Ret _ σ2 => win_rate σ2
        | Exc e σ2 => Exc e σ2
        | OutOfFuel => OutOfFuel
        end
    | Exc e σ1 => Exc e σ1
    | OutOfFuel => OutOfFuel
    end.
Proof. reflexivity. Qed.

Lemma win_rate_ends (σ : globals) : win_rate σ <> OutOfFuel.
Proof.
  unfold win_rate, bind, gets, raise, ret. simpl.
  destruct (Nat.eqb _ 0); discriminate.
Qed.

Lemma tester_more_fuel (fuel fuel' : nat) (π : gmap string (list string))
    (N : nat) (σ0 : globals) :
  tester is_win fuel π N σ0 <> OutOfFuel ->
  fuel <= fuel' ->
  tester is_win fuel' π N σ0 = tester is_win fuel π N σ0.
Proof.
  rewrite !tester_eq. intros Hend Hle.
  destruct (prepare π σ0) as [u σ1|e σ1|]; try reflexivity.
  rewrite (simulate_more_fuel fuel fuel' N σ1); [reflexivity| |exact Hle].
  intros E. rewrite E in Hend. contradiction.
Qed.

(** ** The shot of a pass *)

Lemma choose_shot_eq (σ : globals) :
  choose_shot σ
  = choice (default ["5"] (example_policy σ !! current_prompt σ)) σ.
Proof. reflexivity. Qed.

(** Sampling a sequence whose elements are all [x] gives [x], after one
    draw. *)
Lemma choice_constant (l : list string) (x : string) (σ : globals) :
  l <> [] ->
  (forall y, y ∈ l -> y = x) ->
  choice l σ
  = Ret x (set_random_state
             (Rng (tape (random_state σ)) (S (cursor (random_state σ)))) σ).
Proof.
  intros Hl Hall. destruct (choice_spec l σ Hl) as (y & Hy & Hc).
  rewrite Hc. apply list_elem_of_lookup_2 in Hy. apply Hall in Hy as ->.
  reflexivity.
Qed.

(** With both tokens in their vocabularies and a threshold that is not
    negative, the query answers. *)
Lemma model_answers (σ : globals) (prompt shot : string) :
  prompt ∈ poss_prompts σ ->
  shot ∈ all_shots σ ->
  (0 <= threshold σ)%Z ->
  exists x σ', model prompt shot σ = Ret x σ'.
Proof.
  intros Hp Hs Hthr.
  apply index_elem_of in Hp as [i Hi]. apply index_elem_of in Hs as [j Hj].
  rewrite (model_at σ prompt shot i j Hi Hj).
  destruct (Z.ltb_spec (threshold σ) (Z.of_nat (length (Model σ i j))))
    as [Hlt|Hge].
  - assert (Hne : Model σ i j <> []).
    { intros E. rewrite E in Hlt. simpl in Hlt. lia. }
    destruct (choice_spec (Model σ i j) σ Hne) as (x & _ & Hc).
    rewrite Hc. eauto.
  - eauto.
Qed.

Lemma settle_answers (next_prompt : string) (σ : globals) :
  exists f σ', settle is_win next_prompt σ = Ret f σ'.
Proof.
  rewrite settle_eq.
  destruct (is_win next_prompt =? 1)%Z; [eauto|].
  destruct (is_win next_prompt =? 0)%Z; eauto.
Qed.

End TesterFacts.

(** ** The rally that does not end *)

Lemma rally_pass (t : nat -> nat) (c : nat) (p : string) :
  p = "X" \/ p = "f1" ->
  turn Sample.is_win (Sample.rally t c p)
  = Ret Continue (Sample.rally t (S (S c)) "f1").
Proof.
  intros Hp. rewrite turn_unfold, choose_shot_eq.
  assert (Hshot : exists shot,
            (shot = "5" \/ shot = "f1") /\
            (p = "X" -> shot = "5") /\ (p = "f1" -> shot = "f1") /\
            choice (default ["5"]
                      (example_policy (Sample.rally t c p)
                         !! current_prompt (Sample.rally t c p)))
                   (Sample.rally t c p)
            = Ret shot (Sample.rally t (S c) p)).
  { destruct Hp as [-> | ->].
    - exists "5". split; [auto|]. split; [auto|]. split; [discriminate|].
      apply (choice_constant ["5"] "5"); [discriminate|].
      intros y Hy. apply list_elem_of_singleton in Hy. exact Hy.
    - exists "f1". split; [auto|]. split; [discriminate|]. split; [auto|].
      apply (choice_constant ["f1"] "f1"); [discriminate|].
      intros y Hy. apply list_elem_of_singleton in Hy. exact Hy. }
  destruct Hshot as (shot & _ & HX & Hf1 & ->).
  change (current_prompt (Sample.rally t (S c) p)) with p.
  assert (Hm : model p shot (Sample.rally t (S c) p)
               = Ret "f1" (Sample.rally t (S (S c)) p)).
  { destruct Hp as [-> | ->].
    - rewrite (HX eq_refl).
      rewrite (model_at (Sample.rally t (S c) "X") "X" "5" 0 1 eq_refl eq_refl).
      apply (choice_constant ["f1"; "f1"] "f1"); [discriminate|].
      intros y Hy. repeat (apply elem_of_cons in Hy as [Hy|Hy]; [exact Hy|]).
      apply elem_of_nil in Hy. contradiction.
    - rewrite (Hf1 eq_refl).
      rewrite (model_at (Sample.rally t (S c) "f1") "f1" "f1" 4 3
                 eq_refl eq_refl).
      apply (choice_constant ["f1"; "f1"] "f1"); [discriminate|].
      intros y Hy. repeat (apply elem_of_cons in Hy as [Hy|Hy]; [exact Hy|]).
      apply elem_of_nil in Hy. contradiction. }
  rewrite Hm, settle_eq. reflexivity.
Qed.

Lemma rally_runs_on (t : nat -> nat) (fuel c : nat) (p : string) :
  p = "X" \/ p = "f1" ->
  play_point Sample.is_win fuel (Sample.rally t c p) = OutOfFuel.
Proof.
  revert c p. induction fuel as [|fuel IH]; intros c p Hp; [reflexivity|].
  rewrite play_point_S, (rally_pass t c p Hp), IH; auto.
Qed.

(** ** The claims about cell 13 *)

Lemma play_point_exact_fuel (is_win : string -> Z) (fuel : nat)
    (σ : globals) (n : nat) (σ' : globals) :
  play_point is_win fuel σ = Ret n σ' ->
  play_point is_win n σ = Ret n σ'.
Proof.
  revert σ n. induction fuel as [|fuel IH]; intros σ n; [discriminate|].
  rewrite play_point_S.
  destruct (turn is_win σ) as [[|] σ1|e σ1|] eqn:Ht; try discriminate.
  - intros [= <- <-]. rewrite play_point_S, Ht. reflexivity.
  - destruct (play_point is_win fuel σ1) as [m σ2|e σ2|] eqn:Hp;
      try discriminate.
    intros [= <- <-]. rewrite play_point_S, Ht, (IH _ _ Hp). reflexivity.
Qed.

(** C5.  When the policy has no entry for the current prompt, the shot is
    drawn from [['5']]: it is ['5'], after one draw; the pass goes on as the
    query [model(current_prompt, '5')] followed by the settling of its
    answer; and with the current prompt among the possible prompts, ['5']
    among the allowed shots and a threshold that is not negative, the pass
    ends without an exception. *)
Theorem policy_miss_plays_default (is_win : string -> Z) (σ : globals) :
  example_policy σ !! current_prompt σ = None ->
  let σa :=
    set_random_state
      (Rng (tape (random_state σ)) (S (cursor (random_state σ)))) σ in
  choose_shot σ = Ret "5" σa /\
  turn is_win σ = bind (model (current_prompt σ) "5") (settle is_win) σa /\
  (current_prompt σ ∈ poss_prompts σ ->
   "5" ∈ all_shots σ ->
   (0 <= threshold σ)%Z ->
   exists f σ', turn is_win σ = Ret f σ').
Proof.
  intros Hmiss σa.
  assert (Hc : choose_shot σ = Ret "5" σa).
  { rewrite choose_shot_eq, Hmiss. apply choice_constant; [discriminate|].
    intros y Hy. apply list_elem_of_singleton in Hy. exact Hy. }
  assert (Ht : turn is_win σ
               = bind (model (current_prompt σ) "5") (settle is_win) σa).
  { rewrite turn_unfold, Hc. reflexivity. }
  split; [exact Hc|]. split; [exact Ht|].
  intros Hp Hs Hthr. rewrite Ht. unfold bind.
  destruct (model_answers σa (current_prompt σ) "5" Hp Hs Hthr)
    as (x & σb & ->).
  apply settle_answers.
Qed.

Lemma policy_miss_plays_default_witness :
  example_policy Sample.court !! current_prompt Sample.court = None /\
  (exists σa, choose_shot Sample.court = Ret "5" σa) /\
  (exists f σ', turn Sample.is_win Sample.court = Ret f σ').
Proof.
  assert (Hmiss : example_policy Sample.court
                    !! current_prompt Sample.court = None)
    by (vm_compute; reflexivity).
  destruct (policy_miss_plays_default Sample.is_win Sample.court Hmiss)
    as (Hc & _ & Ht).
  split; [exact Hmiss|]. split; [eexists; exact Hc|].
  apply Ht; [simpl; left | simpl; right; left | simpl; lia].
Defined.

(** C6 as stated fails.  On the rally court the cell's policy answers
    ['f1'] with ['f1'], the table answers [('X', '5')] and [('f1', 'f1')]
    with ['f1'], and ['f1'] is not terminal: started from ['X'], the loop of
    one point has not stopped after any number of passes. *)
Lemma play_point_no_cap_counterexample :
  ~ exists cap : nat,
      play_point Sample.is_win cap (Sample.rally (fun n => n) 0 "X")
      <> OutOfFuel.
Proof.
  intros [cap Hcap]. apply Hcap. apply rally_runs_on. left. reflexivity.
Qed.

(** C6, amended.  The loop of one point has no cap on its passes: it stops
    at the pass that leaves a prompt [is_win] maps to [1] or [0].  A point
    that ends after [n] passes ends so, with the same globals, under every
    budget of at least [n] passes, and is still running under every budget
    below [n]. *)
Theorem play_point_stops_on_terminal (is_win : string -> Z) (fuel : nat)
    (σ : globals) (n : nat) (σ' : globals) :
  play_point is_win fuel σ = Ret n σ' ->
  1 <= n <= fuel /\
  (is_win (current_prompt σ') = 1 \/ is_win (current_prompt σ') = 0)%Z /\
  (forall fuel', n <= fuel' -> play_point is_win fuel' σ = Ret n σ') /\
  (forall fuel', fuel' < n -> play_point is_win fuel' σ = OutOfFuel).
Proof.
  intros H. pose proof (play_point_Ret is_win fuel σ n σ' H) as (_ & _ & Hw & Hn).
  split; [exact Hn|]. split; [exact Hw|]. split.
  - intros fuel' Hle. apply play_point_exact_fuel in H.
    rewrite (play_point_more_fuel is_win n fuel' σ); [exact H| |exact Hle].
    rewrite H. discriminate.
  - apply (play_point_less_fuel is_win fuel σ n σ' H).
Qed.

Lemma play_point_stops_on_terminal_witness :
  let σ := Sample.world Sample.court_rows 1 "X"
             (fun n => match n with 1 => 1 | 3 => 2 | 4 | 5 => 1 | _ => 0 end)
  in
  play_point Sample.is_win 5 σ
  = Ret 3 (Sample.state_of σ (play_point Sample.is_win 5)) /\
  play_point Sample.is_win 3 σ
  = Ret 3 (Sample.state_of σ (play_point Sample.is_win 5)) /\
  play_point Sample.is_win 2 σ = OutOfFuel.
Proof.
  intros σ.
  assert (H : play_point Sample.is_win 5 σ
              = Ret 3 (Sample.state_of σ (play_point Sample.is_win 5)))
    by (vm_compute; reflexivity).
  destruct (play_point_stops_on_terminal Sample.is_win 5 σ 3 _ H)
    as (_ & _ & Hmore & Hless).
  split; [exact H|]. split; [apply Hmore; lia | apply Hless; lia].
Defined.

Lemma win_rate_eq (σ : globals) :
  win_rate σ
  = if Nat.eqb (points_lost σ + points_won σ) 0
    then Exc ZeroDivisionError σ
    else Ret (Z.of_nat (points_won σ)
              # Pos.of_nat (points_lost σ + points_won σ)) σ.
Proof.
  unfold win_rate, bind, gets, raise, ret. simpl.
  destruct (Nat.eqb _ 0); reflexivity.
Qed.

(** With no point played the division raises. *)
Lemma tester_no_points (is_win : string -> Z) (fuel : nat)
    (π : gmap string (list string)) (σ0 σ1 : globals) :
  prepare π σ0 = Ret tt σ1 ->
  tester is_win fuel π 0 σ0 = Exc ZeroDivisionError σ1.
Proof.
  intros Hp. pose proof (prepare_Ret π σ0 tt σ1 Hp) as (Hw0 & Hl0 & _).
  rewrite tester_eq, Hp. simpl. rewrite win_rate_eq, Hw0, Hl0. reflexivity.
Qed.

Lemma Zpos_of_nat (n : nat) : n <> 0 -> Zpos (Pos.of_nat n) = Z.of_nat n.
Proof.
  intros Hn. rewrite <- positive_nat_Z, Nat2Pos.id by exact Hn. reflexivity.
Qed.

(** C7.  When the part of the cell up to the end of the [for] loop has run
    through at least one point, the cell ends with the metric
    [points_won/(points_lost + points_won)] of the counters it ends with:
    the quotient of the wins by the wins and losses together, a number from
    [0] to [1]. *)
Theorem win_rate_of_counts (is_win : string -> Z) (fuel : nat)
    (π : gmap string (list string)) (N : nat) (σ0 σ1 : globals) :
  bind (prepare π) (fun _ => simulate is_win fuel N) σ0 = Ret tt σ1 ->
  1 <= N ->
  exists q : Q,
    tester is_win fuel π N σ0 = Ret q σ1 /\
    (q == inject_Z (Z.of_nat (points_won σ1))
          / inject_Z (Z.of_nat (points_won σ1 + points_lost σ1)))%Q /\
    (0 <= q)%Q /\ (q <= 1)%Q.
Proof.
  intros H HN. apply bind_Ret in H as (u & σp & Hp & Hs).
  pose proof (prepare_Ret π σ0 u σp Hp) as (Hw0 & Hl0 & _).
  pose proof (simulate_Ret is_win fuel N σp tt σ1 Hs) as (_ & Hsum).
  rewrite Hw0, Hl0 in Hsum. simpl in Hsum.
  assert (Hpos : points_lost σ1 + points_won σ1 <> 0) by lia.
  exists (Z.of_nat (points_won σ1)
          # Pos.of_nat (points_lost σ1 + points_won σ1)).
  split; [|split; [|split]].
  - rewrite tester_eq, Hp, Hs, win_rate_eq.
    destruct (Nat.eqb_spec (points_lost σ1 + points_won σ1) 0);
      [contradiction | reflexivity].
  - rewrite Qmake_Qdiv, (Zpos_of_nat _ Hpos).
    replace (points_lost σ1 + points_won σ1)
      with (points_won σ1 + points_lost σ1) by lia.
    reflexivity.
  - unfold Qle. simpl. lia.
  - unfold Qle. simpl. rewrite (Zpos_of_nat _ Hpos). lia.
Qed.

Lemma win_rate_of_counts_witness :
  exists q : Q,
    tester Sample.is_win 10 Sample.policy 6 Sample.court'
    = Ret q (Sample.state_of Sample.court'
               (tester Sample.is_win 10 Sample.policy 6)) /\
    (q == 1 # 6)%Q /\ (0 <= q)%Q /\ (q <= 1)%Q.
Proof.
  assert (H : bind (prepare Sample.policy)
                (fun _ => simulate Sample.is_win 10 6) Sample.court'
              = Ret tt (Sample.state_of Sample.court'
                          (tester Sample.is_win 10 Sample.policy 6)))
    by (vm_compute; reflexivity).
  destruct (win_rate_of_counts Sample.is_win 10 Sample.policy 6 _ _ H
              ltac:(lia)) as (q & Ht & Hq & H0 & H1).
  exists q. split; [exact Ht|]. split; [|split; [exact H0 | exact H1]].
  rewrite Hq. vm_compute. reflexivity.
Defined.

(** The serves listed by the cell stay historical serves all through the
    loop. *)
Lemma serves_historical (is_win : string -> Z) (fuel : nat)
    (π : gmap string (list string)) (σ0 : globals) (u : unit)
    (σ1 : globals) (k : nat) (σ : globals) :
  prepare π σ0 = Ret u σ1 ->
  at_iteration is_win fuel σ1 k σ ->
  forall s, s ∈ serves_opponent σ -> historical_serve σ s.
Proof.
  intros Hp Hk s Hs.
  apply prepare_Ret in Hp as (_ & _ & _ & _ & Hhist).
  apply at_iteration_same_inputs in Hk as [Hi _].
  destruct Hi as (_ & _ & _ & Hrec & _ & _ & Hserves).
  rewrite Hserves in Hs. destruct (Hhist s Hs) as [(sh & Hin & Hh) Hc].
  split; [|exact Hc]. exists sh. rewrite Hrec. split; assumption.
Qed.

(** ** Reruns *)

(** The comprehension reads the records only. *)
Lemma first_shots_any_state (rs : list (list string)) (σ σ' : globals) :
  first_shots rs σ'
  = match first_shots rs σ with
    | Ret l _ => Ret l σ'
    | Exc e _ => Exc e σ'
    | OutOfFuel => OutOfFuel
    end.
Proof.
  induction rs as [|sh rs IH]; simpl; [reflexivity|].
  destruct sh as [|shot sh']; [reflexivity|].
  unfold bind. rewrite IH.
  destruct (first_shots rs σ) as [l σ2|e σ2|]; reflexivity.
Qed.

Lemma keep_serves_any_state (shots : list string) (σ σ' : globals) :
  keep_serves shots σ'
  = match keep_serves shots σ with
    | Ret l _ => Ret l σ'
    | Exc e _ => Exc e σ'
    | OutOfFuel => OutOfFuel
    end.
Proof.
  induction shots as [|shot shots IH]; simpl; [reflexivity|].
  destruct shot as [|c tl]; [reflexivity|].
  unfold bind. rewrite IH.
  destruct (keep_serves shots σ) as [l σ2|e σ2|]; reflexivity.
Qed.

(** What is left over from earlier cells does not reach the loop, but for
    the current prompt. *)
Lemma prepare_same_setup (π : gmap string (list string)) (σ σ' : globals)
    (u : unit) (σ1 : globals) :
  same_setup σ σ' ->
  prepare π σ = Ret u σ1 ->
  prepare π σ' = Ret u (set_current_prompt (current_prompt σ') σ1).
Proof.
  intros (Hpp & Hsh & Hmod & Hrec & Hthr & Hrng) H.
  unfold prepare, build_serves_opponent in *.
  apply bind_Ret in H as ([] & σa & Ha & H). injection Ha as <-.
  apply bind_Ret in H as ([] & σb & Hb & H).
  apply bind_Ret in Hb as (rs & σc & Hc & Hb). injection Hc as <- <-.
  apply bind_Ret in Hb as (firsts & σd & Hd & Hb).
  pose proof (first_shots_Ret _ _ _ _ Hd) as [-> _].
  apply bind_Ret in Hb as (serves & σe & He & Hb).
  pose proof (keep_serves_Ret _ _ _ _ He) as [-> _].
  injection Hb as <-.
  apply bind_Ret in H as ([] & σf & Hf & H). injection Hf as <-.
  injection H as H. subst σ1. destruct u.
  unfold bind, modify, gets. simpl. rewrite Hrec.
  rewrite (first_shots_any_state _ (set_example_policy π σ)
             (set_example_policy π σ')), Hd.
  rewrite (keep_serves_any_state _ (set_example_policy π σ)
             (set_example_policy π σ')), He.
  f_equal. destruct σ, σ'. simpl in *. subst. reflexivity.
Qed.

Lemma choose_server_forgets (p : string) (σ : globals) (u : unit)
    (σ' : globals) :
  choose_server σ = Ret u σ' ->
  choose_server (set_current_prompt p σ) = Ret u σ'.
Proof.
  rewrite !choose_server_eq. cbv zeta.
  change (random_state (set_current_prompt p σ)) with (random_state σ).
  change (serves_opponent (set_current_prompt p σ)) with (serves_opponent σ).
  destruct (Nat.eqb _ 0); [intros H; exact H|].
  unfold choice. destruct (serves_opponent σ) as [|d l]; [discriminate|].
  intros H. exact H.
Qed.

Lemma simulate_forgets (is_win : string -> Z) (fuel N : nat) (p : string)
    (σ : globals) (u : unit) (σ' : globals) :
  1 <= N ->
  simulate is_win fuel N σ = Ret u σ' ->
  simulate is_win fuel N (set_current_prompt p σ) = Ret u σ'.
Proof.
  intros HN H. destruct N as [|N]; [lia|]. simpl in *.
  apply bind_Ret in H as (n & σa & Ha & Hrest).
  unfold one_point in Ha. apply bind_Ret in Ha as (v & σb & Hb & Hplay).
  unfold bind at 1. unfold one_point, bind at 1.
  rewrite (choose_server_forgets p σ v σb Hb), Hplay. exact Hrest.
Qed.

(** C9.  Two runs of the cell on notebooks set up alike (same vocabularies,
    table, records, threshold and random state) with the same policy and
    number of points end with the same counters, the same metric and the
    same globals altogether, whatever was left over from earlier cells. *)
Theorem tester_same_seed_same_counts (is_win : string -> Z)
    (π : gmap string (list string)) (N : nat) (σ0 σ0' : globals)
    (fuel1 fuel2 : nat) (q1 q2 : Q) (σ1 σ2 : globals) :
  same_setup σ0 σ0' ->
  tester is_win fuel1 π N σ0 = Ret q1 σ1 ->
  tester is_win fuel2 π N σ0' = Ret q2 σ2 ->
  points_won σ1 = points_won σ2 /\
  points_lost σ1 = points_lost σ2 /\
  q1 = q2 /\
  σ1 = σ2.
Proof.
  intros Hsame H1 H2. rewrite tester_eq in H1, H2.
  destruct (prepare π σ0) as [u σp|e σp|] eqn:Hp; try discriminate.
  rewrite (prepare_same_setup π σ0 σ0' u σp Hsame Hp) in H2.
  pose proof (prepare_Ret π σ0 u σp Hp) as (Hw0 & Hl0 & _).
  destruct (simulate is_win fuel1 N σp) as [v σe|e σe|] eqn:Hs1;
    try discriminate.
  assert (HN : 1 <= N).
  { destruct N as [|N]; [|lia]. exfalso. simpl in Hs1.
    injection Hs1 as _ <-. rewrite win_rate_eq, Hw0, Hl0 in H1.
    discriminate. }
  pose proof (simulate_forgets is_win fuel1 N (current_prompt σ0') σp v σe
                HN Hs1) as Hs1'.
  set (σp' := set_current_prompt (current_prompt σ0') σp) in *.
  assert (Hs2 : simulate is_win fuel2 N σp' = Ret v σe).
  { destruct (simulate is_win fuel2 N σp') as [w σe'|e σe'|] eqn:Hs2;
      try discriminate.
    rewrite <- Hs1', <- Hs2.
    rewrite <- (simulate_more_fuel is_win fuel1 (Nat.max fuel1 fuel2) N σp')
      by (rewrite ?Hs1'; first [discriminate | lia]).
    rewrite <- (simulate_more_fuel is_win fuel2 (Nat.max fuel1 fuel2) N σp')
      by (rewrite ?Hs2; first [discriminate | lia]).
    reflexivity. }
  rewrite Hs2 in H2. rewrite H1 in H2. injection H2 as <- <-.
  repeat split; reflexivity.
Qed.

Lemma tester_same_seed_same_counts_witness :
  same_setup Sample.court' Sample.court_used /\
  tester Sample.is_win 3 Sample.policy 6 Sample.court'
  = tester Sample.is_win 9 Sample.policy 6 Sample.court_used /\
  points_won (Sample.state_of Sample.court'
                (tester Sample.is_win 3 Sample.policy 6)) = 1 /\
  points_lost (Sample.state_of Sample.court_used
                 (tester Sample.is_win 9 Sample.policy 6)) = 5.
Proof.
  assert (Hsame : same_setup Sample.court' Sample.court_used)
    by (repeat split; reflexivity).
  assert (H1 : tester Sample.is_win 3 Sample.policy 6 Sample.court'
               = Ret (1 # 6)
                   (Sample.state_of Sample.court'
                      (tester Sample.is_win 3 Sample.policy 6)))
    by (vm_compute; reflexivity).
  assert (H2 : tester Sample.is_win 9 Sample.policy 6 Sample.court_used
               = Ret (1 # 6)
                   (Sample.state_of Sample.court_used
                      (tester Sample.is_win 9 Sample.policy 6)))
    by (vm_compute; reflexivity).
  destruct (tester_same_seed_same_counts Sample.is_win Sample.policy 6
              Sample.court' Sample.court_used 3 9 _ _ _ _ Hsame H1 H2)
    as (Hw & Hl & _ & Hσ).
  split; [exact Hsame|]. split; [rewrite H1, H2, Hσ; reflexivity|].
  split; [vm_compute; reflexivity|]. rewrite <- Hl. vm_compute. reflexivity.
Defined.

(** C10.  After the cell's preamble, a loop over [N] points that all ended
    leaves [points_won + points_lost = N] and the vocabularies, the table,
    the records, the threshold, the policy and the list of serves as they
    were.  At the top of iteration [k] the counters add up to [k]; an
    iteration whose point ends raises exactly one counter by one, one that
    stops on an exception raises none, and neither touches those inputs. *)
Theorem every_point_counted_once (is_win : string -> Z) (fuel : nat)
    (π : gmap string (list string)) (N : nat) (σ0 σ1 σ' : globals) :
  prepare π σ0 = Ret tt σ1 ->
  simulate is_win fuel N σ1 = Ret tt σ' ->
  points_won σ' + points_lost σ' = N /\
  same_inputs σ1 σ' /\
  (forall k σ, at_iteration is_win fuel σ1 k σ ->
     points_won σ + points_lost σ = k /\
     same_inputs σ1 σ /\
     match one_point is_win fuel σ with
     | Ret _ σ2 => counted_one σ σ2 /\ same_inputs σ σ2
     | Exc _ σ2 =>
         points_won σ2 = points_won σ /\ points_lost σ2 = points_lost σ /\
         same_inputs σ σ2
     | OutOfFuel => True
     end).
Proof.
  intros Hp Hs.
  pose proof (prepare_Ret π σ0 tt σ1 Hp) as (Hw0 & Hl0 & _).
  pose proof (simulate_Ret is_win fuel N σ1 tt σ' Hs) as (Hi & Hsum).
  split; [lia|]. split; [exact Hi|].
  intros k σ Hk.
  pose proof (at_iteration_same_inputs is_win fuel σ1 k σ Hk) as (Hik & Hck).
  split; [lia|]. split; [exact Hik|].
  destruct (one_point is_win fuel σ) as [n σ2|e σ2|] eqn:Ho; [| |exact I].
  - apply one_point_Ret in Ho as (H1 & H2). split; assumption.
  - apply one_point_Exc in Ho as (H1 & H2 & H3).
    split; [exact H2|]. split; [exact H3 | exact H1].
Qed.

Lemma every_point_counted_once_witness :
  let σ1 := Sample.state_of Sample.court' (prepare Sample.policy) in
  let σ' := Sample.state_of σ1 (simulate Sample.is_win 10 6) in
  prepare Sample.policy Sample.court' = Ret tt σ1 /\
  simulate Sample.is_win 10 6 σ1 = Ret tt σ' /\
  points_won σ' + points_lost σ' = 6 /\
  Model σ' = Model σ1.
Proof.
  intros σ1 σ'.
  assert (Hp : prepare Sample.policy Sample.court' = Ret tt σ1)
    by (vm_compute; reflexivity).
  assert (Hs : simulate Sample.is_win 10 6 σ1 = Ret tt σ')
    by (vm_compute; reflexivity).
  destruct (every_point_counted_once Sample.is_win 10 Sample.policy 6
              Sample.court' σ1 σ' Hp Hs) as (Hsum & Hi & _).
  split; [exact Hp|]. split; [exact Hs|]. split; [exact Hsum|]. apply Hi.
Defined.

(** * Further properties of the two cells *)

(** ** The transition query *)

(** What a query can do: answer after touching nothing but the random
    state, with ['n@'] or with a recorded continuation of the pair; or raise
    [ValueError] with the globals as they were. *)
Lemma model_cases (prompt shot : string) (σ : globals) :
  match model prompt shot σ with
  | Ret x σ' =>
      drew σ σ' /\
      (x = "n@" \/
       exists i j, index prompt (poss_prompts σ) = Some i /\
                   index shot (all_shots σ) = Some j /\
                   x ∈ Model σ i j)
  | Exc e σ' => e = ValueError /\ σ' = σ
  | OutOfFuel => False
  end.
Proof.
  destruct (index prompt (poss_prompts σ)) as [i|] eqn:Hi.
  - destruct (index shot (all_shots σ)) as [j|] eqn:Hj.
    + rewrite (model_at σ prompt shot i j Hi Hj).
      destruct (threshold σ <? Z.of_nat (length (Model σ i j)))%Z.
      * destruct (Model σ i j) as [|d l] eqn:El.
        { simpl. split; reflexivity. }
        destruct (choice_spec (d :: l) σ ltac:(discriminate)) as (x & Hx & ->).
        split; [eexists; reflexivity|]. right. exists i, j.
        rewrite El. repeat split; try reflexivity.
        eapply list_elem_of_lookup_2. exact Hx.
      * split; [apply drew_refl | left; reflexivity].
    + unfold model, bind, gets, list_index. simpl. rewrite Hi. simpl.
      rewrite Hj. split; reflexivity.
  - unfold model, bind, gets, list_index. simpl. rewrite Hi.
    split; reflexivity.
Qed.

(** X1.  A prompt that is not among the possible prompts makes the first
    subscript raise: [model] stops with [ValueError], whatever the shot, and
    leaves the globals as they were. *)
Theorem model_unknown_prompt_raises (σ : globals) (prompt shot : string) :
  prompt ∉ poss_prompts σ ->
  model prompt shot σ = Exc ValueError σ.
Proof.
  intros Hp. apply index_None in Hp.
  unfold model, bind, gets, list_index. simpl. rewrite Hp. reflexivity.
Qed.

Lemma model_unknown_prompt_raises_witness :
  ("f28" ∉ poss_prompts Sample.court) /\
  model "f28" "zz" Sample.court = Exc ValueError Sample.court.
Proof.
  assert (Hp : "f28" ∉ poss_prompts Sample.court)
    by (apply index_None; reflexivity).
  split; [exact Hp|].
  apply (model_unknown_prompt_raises Sample.court "f28" "zz" Hp).
Defined.

(** X2.  A bucket no longer than the threshold is never sampled, however
    many continuations it records: [model] answers ['n@'] without a draw
    and leaves every global as it was. *)
Theorem model_rare_bucket_fallback (σ : globals) (prompt shot : string)
    (i j : nat) :
  index prompt (poss_prompts σ) = Some i ->
  index shot (all_shots σ) = Some j ->
  (Z.of_nat (length (Model σ i j)) <= threshold σ)%Z ->
  model prompt shot σ = Ret "n@" σ.
Proof.
  intros Hi Hj Hlen. rewrite (model_at σ prompt shot i j Hi Hj).
  destruct (Z.ltb_spec (threshold σ) (Z.of_nat (length (Model σ i j))));
    [lia | reflexivity].
Qed.

Lemma model_rare_bucket_fallback_witness :
  index "f3" (poss_prompts Sample.court) = Some 5 /\
  index "b3" (all_shots Sample.court) = Some 6 /\
  Model Sample.court 5 6 = ["*"] /\
  model "f3" "b3" Sample.court = Ret "n@" Sample.court.
Proof.
  repeat (split; [reflexivity|]).
  apply (model_rare_bucket_fallback Sample.court "f3" "b3" 5 6);
    [reflexivity | reflexivity | simpl; lia].
Defined.

(** X3.  Every call of [model] ends.  When it answers, only the random
    state may have moved and the answer is ['n@'] or one of the
    continuations recorded for the pair; when it raises, the exception is
    [ValueError] and no global has changed. *)
Theorem model_answers_or_raises (σ : globals) (prompt shot : string) :
  (exists x σ',
     model prompt shot σ = Ret x σ' /\
     (exists g, σ' = set_random_state g σ) /\
     (x = "n@" \/
      exists i j, index prompt (poss_prompts σ) = Some i /\
                  index shot (all_shots σ) = Some j /\
                  x ∈ Model σ i j)) \/
  model prompt shot σ = Exc ValueError σ.
Proof.
  pose proof (model_cases prompt shot σ) as H.
  destruct (model prompt shot σ) as [x σ'|e σ'|]; [| |contradiction].
  - left. exists x, σ'. destruct H as [Hd Hx]. repeat split; assumption.
  - right. destruct H as [-> ->]. reflexivity.
Qed.

(** X4.  On a closed table whose vocabulary has ['n@'], whatever [model]
    answers is again a possible prompt: the next query can look it up. *)
Theorem model_answer_is_possible_prompt (σ : globals) (prompt shot x : string)
    (σ' : globals) :
  table_closed σ ->
  "n@" ∈ poss_prompts σ ->
  model prompt shot σ = Ret x σ' ->
  x ∈ poss_prompts σ' /\ table_closed σ'.
Proof.
  intros Hclosed Hnet Hm. pose proof (model_cases prompt shot σ) as H.
  rewrite Hm in H. destruct H as [[g ->] Hx]. split; [|exact Hclosed].
  destruct Hx as [->|(i & j & _ & _ & Hin)]; [exact Hnet|].
  apply (Hclosed i j x Hin).
Qed.

Lemma index_elem_of_iff (x : string) (l : list string) :
  x ∈ l <-> index x l <> None.
Proof.
  split.
  - intros H E. apply index_None in E. contradiction.
  - intros H. destruct (decide (x ∈ l)) as [Hin|Hout]; [exact Hin|].
    apply index_None in Hout. contradiction.
Qed.

Lemma court_table_closed (thr : Z) (start : string) (t : nat -> nat) :
  table_closed (Sample.world Sample.court_rows thr start t).
Proof.
  intros i j x. simpl. unfold Sample.table.
  destruct (Sample.prompts !! i) as [p|]; [|intros H; inversion H].
  destruct (Sample.shots !! j) as [s|]; [|intros H; inversion H].
  unfold Sample.court_rows. simpl.
  repeat (destruct (decide _) as [_|_];
          [intros H;
           repeat (apply elem_of_cons in H as [->|H];
                   [apply index_elem_of_iff; discriminate|]);
           inversion H|]).
  intros H. inversion H.
Qed.

Lemma model_answer_is_possible_prompt_witness :
  let σ' := Sample.state_of Sample.court (model "X" "5") in
  table_closed Sample.court /\
  "n@" ∈ poss_prompts Sample.court /\
  model "X" "5" Sample.court = Ret "f1" σ' /\
  "f1" ∈ poss_prompts σ'.
Proof.
  intros σ'.
  assert (Hc : table_closed Sample.court) by apply court_table_closed.
  assert (Hn : "n@" ∈ poss_prompts Sample.court)
    by (apply index_elem_of_iff; discriminate).
  assert (Hm : model "X" "5" Sample.court = Ret "f1" σ')
    by (vm_compute; reflexivity).
  split; [exact Hc|]. split; [exact Hn|]. split; [exact Hm|].
  apply (model_answer_is_possible_prompt Sample.court "X" "5" "f1" σ' Hc Hn Hm).
Defined.

(** ** The shot of a pass *)

(** X5.  When the policy has a non-empty list for the current prompt, the
    shot of the pass is a member of that list and nothing but the random
    state has moved; and every entry of the list is the shot for some value
    of the draw. *)
Theorem policy_entry_is_sampled (σ : globals) (l : list string) :
  example_policy σ !! current_prompt σ = Some l ->
  l <> [] ->
  (exists shot g,
     shot ∈ l /\ choose_shot σ = Ret shot (set_random_state g σ)) /\
  (forall k s, l !! k = Some s ->
     forall c, exists g,
       choose_shot (set_random_state (Rng (fun _ => k) c) σ)
       = Ret s (set_random_state g σ)).
Proof.
  intros Hl Hne. split.
  - rewrite choose_shot_eq, Hl. simpl.
    destruct (choice_spec l σ Hne) as (x & Hx & Hc).
    exists x. eexists. split; [|exact Hc].
    eapply list_elem_of_lookup_2. exact Hx.
  - intros k s Hk c.
    set (σk := set_random_state (Rng (fun _ => k) c) σ).
    rewrite choose_shot_eq.
    change (example_policy σk !! current_prompt σk)
      with (example_policy σ !! current_prompt σ).
    rewrite Hl. simpl.
    destruct (choice_spec l σk Hne) as (x & Hx & Hc).
    rewrite Hc. simpl in Hx.
    assert (Hklt : k < length l) by (eapply lookup_lt_Some; eauto).
    rewrite Nat.mod_small in Hx by exact Hklt.
    rewrite Hk in Hx. injection Hx as <-.
    eexists. unfold σk. reflexivity.
Qed.

Lemma policy_entry_is_sampled_witness :
  let σ := Sample.world Sample.court_rows 1 "f3" (fun n => n + 2) in
  example_policy σ !! current_prompt σ = Some ["b2"; "b2"; "b3"; "v1"] /\
  (exists shot g,
     shot ∈ ["b2"; "b2"; "b3"; "v1"] /\
     choose_shot σ = Ret shot (set_random_state g σ)) /\
  exists g,
    choose_shot (set_random_state (Rng (fun _ => 3) 0) σ)
    = Ret "v1" (set_random_state g σ).
Proof.
  intros σ.
  assert (Hl : example_policy σ !! current_prompt σ
               = Some ["b2"; "b2"; "b3"; "v1"]) by (vm_compute; reflexivity).
  split; [exact Hl|].
  destruct (policy_entry_is_sampled σ _ Hl ltac:(discriminate))
    as (Hmem & Hall).
  split; [exact Hmem|]. apply (Hall 3 "v1" eq_refl 0).
Defined.

(** X6.  A policy whose list for the current prompt is empty stops the
    point at once: the loop raises [ValueError] on its first pass, before
    any draw, and no counter or other global changes. *)
Theorem empty_policy_entry_raises (is_win : string -> Z) (fuel : nat)
    (σ : globals) :
  example_policy σ !! current_prompt σ = Some [] ->
  play_point is_win (S fuel) σ = Exc ValueError σ.
Proof.
  intros Hl. rewrite play_point_S, turn_unfold, choose_shot_eq, Hl.
  reflexivity.
Qed.

Lemma empty_policy_entry_raises_witness :
  let σ := set_example_policy (<["X" := []]> Sample.policy) Sample.court in
  example_policy σ !! current_prompt σ = Some [] /\
  play_point Sample.is_win 4 σ = Exc ValueError σ.
Proof.
  intros σ.
  assert (Hl : example_policy σ !! current_prompt σ = Some [])
    by (vm_compute; reflexivity).
  split; [exact Hl|].
  apply (empty_policy_entry_raises Sample.is_win 3 σ Hl).
Defined.

(** X7.  When the table's bucket for the current prompt and the chosen shot
    is no longer than the threshold, the point is over after that one pass,
    whatever the fuel: the prompt becomes ['n@'], and the point is counted
    as won when [is_win('n@')] is [1] and as lost when it is [0]. *)
Theorem rare_reply_ends_point (is_win : string -> Z) (fuel : nat)
    (σ σa : globals) (shot : string) (i j : nat) :
  choose_shot σ = Ret shot σa ->
  index (current_prompt σ) (poss_prompts σ) = Some i ->
  index shot (all_shots σ) = Some j ->
  (Z.of_nat (length (Model σ i j)) <= threshold σ)%Z ->
  (is_win "n@" = 1%Z ->
   play_point is_win (S fuel) σ
   = Ret 1 (set_points_won (points_won σ + 1)
              (set_current_prompt "n@" σa))) /\
  (is_win "n@" = 0%Z ->
   play_point is_win (S fuel) σ
   = Ret 1 (set_points_lost (points_lost σ + 1)
              (set_current_prompt "n@" σa))).
Proof.
  intros Hc Hi Hj Hlen.
  pose proof (choose_shot_drew σ) as Hd. rewrite Hc in Hd.
  destruct Hd as [g ->].
  assert (Hm : model (current_prompt σ) shot (set_random_state g σ)
               = Ret "n@" (set_random_state g σ)).
  { rewrite (model_at (set_random_state g σ) (current_prompt σ) shot i j
               Hi Hj).
    change (threshold (set_random_state g σ)) with (threshold σ).
    change (Model (set_random_state g σ)) with (Model σ).
    destruct (Z.ltb_spec (threshold σ) (Z.of_nat (length (Model σ i j))));
      [lia | reflexivity]. }
  assert (Ht : turn is_win σ
               = settle is_win "n@" (set_random_state g σ)).
  { rewrite turn_unfold, Hc. simpl. rewrite Hm. reflexivity. }
  split; intros Hw; rewrite play_point_S, Ht, settle_eq, Hw; reflexivity.
Qed.

Lemma rare_reply_ends_point_witness :
  let σ := Sample.world Sample.court_rows 1 "f1" (fun n => n) in
  let σa := Sample.state_of σ choose_shot in
  choose_shot σ = Ret "f1" σa /\
  Model σ 4 3 = [] /\
  Sample.is_win "n@" = 0%Z /\
  play_point Sample.is_win 7 σ
  = Ret 1 (set_points_lost 1 (set_current_prompt "n@" σa)).
Proof.
  intros σ σa.
  assert (Hc : choose_shot σ = Ret "f1" σa) by (vm_compute; reflexivity).
  split; [exact Hc|]. split; [reflexivity|]. split; [reflexivity|].
  apply (rare_reply_ends_point Sample.is_win 6 σ σa "f1" 4 3 Hc);
    [reflexivity | reflexivity | simpl; lia | reflexivity].
Defined.

(** ** The list of serves and the server *)

Lemma first_shots_eq (rs : list (list string)) (σ : globals) :
  first_shots rs σ
  = if forallb (fun sh => match sh with [] => false | _ :: _ => true end) rs
    then Ret (List.map (hd "") rs) σ
    else Exc IndexError σ.
Proof.
  induction rs as [|sh rs IH]; simpl; [reflexivity|].
  destruct sh as [|shot sh']; [reflexivity|]. simpl.
  unfold bind. rewrite IH.
  destruct (forallb _ rs); reflexivity.
Qed.

Lemma keep_serves_eq (shots : list string) (σ : globals) :
  keep_serves shots σ
  = if forallb (fun s => match s with
                         | EmptyString => false
                         | String _ _ => true
                         end) shots
    then Ret (List.filter starts_456 shots) σ
    else Exc IndexError σ.
Proof.
  induction shots as [|shot shots IH]; simpl; [reflexivity|].
  destruct shot as [|c tl]; [reflexivity|]. simpl.
  unfold bind. rewrite IH.
  destruct (forallb _ shots); [|reflexivity].
  unfold ret. destruct (in_456 c); reflexivity.
Qed.

Lemma usable_records_split (rs : list (list string)) :
  forallb usable_record rs
  = forallb (fun sh => match sh with [] => false | _ :: _ => true end) rs
    && forallb (fun s => match s with
                         | EmptyString => false
                         | String _ _ => true
                         end) (List.map (hd "") rs).
Proof.
  induction rs as [|sh rs IH]; [reflexivity|].
  destruct sh as [|[|c tl] sh']; simpl.
  - reflexivity.
  - symmetry. apply andb_false_r.
  - exact IH.
Qed.

Lemma build_serves_opponent_eq (σ : globals) :
  build_serves_opponent σ
  = if forallb usable_record (shots_opo_com σ)
    then Ret tt (set_serves_opponent (serves_of (shots_opo_com σ)) σ)
    else Exc IndexError σ.
Proof.
  unfold build_serves_opponent, bind, gets, modify. simpl.
  rewrite first_shots_eq, usable_records_split.
  destruct (forallb _ (shots_opo_com σ)); simpl; [|reflexivity].
  rewrite keep_serves_eq.
  destruct (forallb _ (List.map (hd "") (shots_opo_com σ))); reflexivity.
Qed.

(** X8.  The comprehension of cell 13 keeps exactly the first shots that
    begin with ['4'], ['5'] or ['6'], in the order of the records and as
    often as they occur there, when every record has a first shot and every
    first shot a first character; if one record or one first shot is empty
    it raises [IndexError] and [serves_opponent] keeps its old value. *)
Theorem serves_opponent_is_filtered (σ : globals) :
  (forallb usable_record (shots_opo_com σ) = true ->
   build_serves_opponent σ
   = Ret tt (set_serves_opponent (serves_of (shots_opo_com σ)) σ)) /\
  (forallb usable_record (shots_opo_com σ) = false ->
   build_serves_opponent σ = Exc IndexError σ).
Proof.
  rewrite build_serves_opponent_eq.
  split; intros ->; reflexivity.
Qed.

Lemma serves_opponent_is_filtered_witness :
  forallb usable_record (shots_opo_com Sample.court) = true /\
  serves_of (shots_opo_com Sample.court) = ["5"; "6"; "4"; "5"] /\
  build_serves_opponent (set_serves_opponent [] Sample.court)
  = Ret tt Sample.court /\
  forallb usable_record [["5"; "f1"]; []] = false.
Proof.
  split; [reflexivity|]. split; [reflexivity|]. split; [|reflexivity].
  destruct (serves_opponent_is_filtered (set_serves_opponent [] Sample.court))
    as [Hok _].
  rewrite Hok; reflexivity.
Defined.

(** X9.  The choice of the server raises in one case only: the draw is not
    [0] and the list of serves is empty.  The exception is then
    [ValueError], raised after that one draw. *)
Theorem choose_server_raises_iff (σ : globals) (e : exn) (σ' : globals) :
  choose_server σ = Exc e σ' <->
  e = ValueError /\
  σ' = set_random_state (snd (randbelow 2 (random_state σ))) σ /\
  fst (randbelow 2 (random_state σ)) <> 0 /\
  serves_opponent σ = [].
Proof.
  rewrite choose_server_eq. cbv zeta.
  destruct (Nat.eqb_spec (fst (randbelow 2 (random_state σ))) 0) as [E|E].
  - split; [discriminate|]. intros (_ & _ & H & _). contradiction.
  - destruct (serves_opponent σ) as [|d l] eqn:El.
    + simpl. split.
      * intros [= <- <-]. repeat split; assumption.
      * intros (-> & -> & _ & _). reflexivity.
    + destruct (choice_spec (d :: l)
                  (set_random_state (snd (randbelow 2 (random_state σ))) σ)
                  ltac:(discriminate)) as (x & _ & ->).
      split; [discriminate|]. intros (_ & _ & _ & H). discriminate.
Qed.

(** ** Exceptions in the loop over the points *)

Lemma choice_Exc (l : list string) (σ : globals) (e : exn) (σ' : globals) :
  choice l σ = Exc e σ' -> e = ValueError /\ l = [].
Proof.
  destruct l as [|d l'].
  - intros [= <- _]. split; reflexivity.
  - destruct (choice_spec (d :: l') σ ltac:(discriminate)) as (x & _ & ->).
    discriminate.
Qed.

Lemma choose_server_Exc_ValueError (σ : globals) (e : exn) (σ' : globals) :
  choose_server σ = Exc e σ' -> e = ValueError.
Proof.
  rewrite choose_server_eq. cbv zeta.
  destruct (Nat.eqb _ 0); [discriminate|].
  match goal with |- context [choice ?l ?s] =>
    destruct (choice l s) as [x σ2|e2 σ2|] eqn:Hc end; try discriminate.
  intros [= <- _]. apply choice_Exc in Hc. apply Hc.
Qed.

Section LoopExceptions.

Variable is_win : string -> Z.

Lemma turn_Exc_ValueError (σ : globals) (e : exn) (σ' : globals) :
  turn is_win σ = Exc e σ' -> e = ValueError.
Proof.
  rewrite turn_unfold.
  destruct (choose_shot σ) as [shot σa|e1 σa|] eqn:Hc; try discriminate.
  - pose proof (model_cases (current_prompt σa) shot σa) as Hm.
    destruct (model (current_prompt σa) shot σa) as [x σb|e2 σb|];
      [| |contradiction].
    + destruct (settle_answers is_win x σb) as (f & σc & ->). discriminate.
    + intros [= <- _]. apply Hm.
  - intros [= <- _]. rewrite choose_shot_eq in Hc.
    apply choice_Exc in Hc. apply Hc.
Qed.

Lemma play_point_Exc_ValueError (fuel : nat) (σ : globals) (e : exn)
    (σ' : globals) :
  play_point is_win fuel σ = Exc e σ' -> e = ValueError.
Proof.
  revert σ. induction fuel as [|fuel IH]; intros σ; [discriminate|].
  rewrite play_point_S.
  destruct (turn is_win σ) as [[|] σ1|e1 σ1|] eqn:Ht; try discriminate.
  - destruct (play_point is_win fuel σ1) as [m σ2|e2 σ2|] eqn:Hp;
      try discriminate.
    intros [= <- <-]. eapply IH. exact Hp.
  - intros [= <- _]. eapply turn_Exc_ValueError. exact Ht.
Qed.

Lemma one_point_Exc_ValueError (fuel : nat) (σ : globals) (e : exn)
    (σ' : globals) :
  one_point is_win fuel σ = Exc e σ' -> e = ValueError.
Proof.
  unfold one_point. intros H. apply bind_Exc in H as [Hs|(u & σ1 & _ & Hp)].
  - eapply choose_server_Exc_ValueError. exact Hs.
  - eapply play_point_Exc_ValueError. exact Hp.
Qed.

Lemma simulate_Exc_ValueError (fuel N : nat) (σ : globals) (e : exn)
    (σ' : globals) :
  simulate is_win fuel N σ = Exc e σ' -> e = ValueError.
Proof.
  revert σ. induction N as [|N IH]; intros σ; simpl; [discriminate|].
  intros H. apply bind_Exc in H as [H1|(n & σ1 & _ & H2)].
  - eapply one_point_Exc_ValueError. exact H1.
  - eapply IH. exact H2.
Qed.

End LoopExceptions.

(** X10.  The loop over the points raises nothing but [ValueError].  When
    it does, the cell stops with that exception before the metric is
    printed; the points completed before stay counted, fewer than the number
    asked for, and the vocabularies, table, records, threshold, policy and
    list of serves are as the preamble left them. *)
Theorem loop_exception_keeps_score (is_win : string -> Z) (fuel : nat)
    (π : gmap string (list string)) (N : nat) (σ0 σ1 : globals) (e : exn)
    (σ' : globals) :
  prepare π σ0 = Ret tt σ1 ->
  simulate is_win fuel N σ1 = Exc e σ' ->
  e = ValueError /\
  tester is_win fuel π N σ0 = Exc ValueError σ' /\
  points_won σ' + points_lost σ' < N /\
  same_inputs σ1 σ'.
Proof.
  intros Hp Hs.
  pose proof (simulate_Exc_ValueError is_win fuel N σ1 e σ' Hs) as ->.
  pose proof (prepare_Ret π σ0 tt σ1 Hp) as (Hw0 & Hl0 & _).
  pose proof (simulate_Exc is_win fuel N σ1 ValueError σ' Hs) as (Hi & Hlt).
  split; [reflexivity|]. split; [rewrite tester_eq, Hp, Hs; reflexivity|].
  split; [lia | exact Hi].
Qed.

Lemma loop_exception_keeps_score_witness :
  let π := <["f1" := ["zz"]]> Sample.policy in
  let σ1 := Sample.state_of Sample.court (prepare π) in
  let σ' := Sample.state_of σ1 (simulate Sample.is_win 10 6) in
  prepare π Sample.court = Ret tt σ1 /\
  simulate Sample.is_win 10 6 σ1 = Exc ValueError σ' /\
  tester Sample.is_win 10 π 6 Sample.court = Exc ValueError σ' /\
  points_won σ' + points_lost σ' = 1.
Proof.
  intros π σ1 σ'.
  assert (Hp : prepare π Sample.court = Ret tt σ1) by (vm_compute; reflexivity).
  assert (Hs : simulate Sample.is_win 10 6 σ1 = Exc ValueError σ')
    by (vm_compute; reflexivity).
  destruct (loop_exception_keeps_score Sample.is_win 10 π 6 Sample.court σ1
              ValueError σ' Hp Hs) as (_ & Ht & _ & _).
  split; [exact Hp|]. split; [exact Hs|]. split; [exact Ht|].
  vm_compute. reflexivity.
Defined.

(** ** A configuration the cell runs on without an exception *)

Lemma win_rate_of_counts_aux (is_win : string -> Z) (fuel : nat)
    (π : gmap string (list string)) (N : nat) (σ0 σp σe : globals) :
  prepare π σ0 = Ret tt σp ->
  simulate is_win fuel N σp = Ret tt σe ->
  1 <= N ->
  exists q, tester is_win fuel π N σ0 = Ret q σe.
Proof.
  intros Hp Hs HN.
  pose proof (prepare_Ret π σ0 tt σp Hp) as (Hw0 & Hl0 & _).
  pose proof (simulate_Ret is_win fuel N σp tt σe Hs) as (_ & Hsum).
  rewrite tester_eq, Hp, Hs, win_rate_eq.
  destruct (Nat.eqb_spec (points_lost σe + points_won σe) 0) as [E|E];
    [lia | eauto].
Qed.

Lemma well_configured_same_inputs (σ σ' : globals) :
  same_inputs σ σ' -> well_configured σ -> well_configured σ'.
Proof.
  intros (Hpp & Hsh & Hmod & _ & Hthr & Hpol & Hserves).
  unfold well_configured, table_closed.
  rewrite Hpp, Hsh, Hmod, Hthr, Hpol, Hserves. tauto.
Qed.

Section Safety.

Variable is_win : string -> Z.

Lemma turn_safe (σ : globals) :
  well_configured σ ->
  current_prompt σ ∈ poss_prompts σ ->
  exists f σ',
    turn is_win σ = Ret f σ' /\
    same_inputs σ σ' /\
    current_prompt σ' ∈ poss_prompts σ'.
Proof.
  intros (HX & Hnet & H5 & Hthr & Hclosed & Hpol & _ & _) Hcur.
  set (l := default ["5"] (example_policy σ !! current_prompt σ)).
  assert (Hl : l <> [] /\ forall s, s ∈ l -> s ∈ all_shots σ).
  { unfold l. destruct (example_policy σ !! current_prompt σ) as [l'|] eqn:E.
    - simpl. apply (Hpol _ _ E).
    - simpl. split; [discriminate|]. intros s Hs.
      apply list_elem_of_singleton in Hs as ->. exact H5. }
  destruct Hl as [Hne Hall].
  destruct (choice_spec l σ Hne) as (shot & Hshot & Hc).
  apply list_elem_of_lookup_2 in Hshot. apply Hall in Hshot.
  set (σa := set_random_state (snd (randbelow (length l) (random_state σ))) σ)
    in *.
  destruct (model_answers σa (current_prompt σ) shot Hcur Hshot Hthr)
    as (x & σb & Hm).
  pose proof (model_cases (current_prompt σ) shot σa) as Hcases.
  rewrite Hm in Hcases. destruct Hcases as [[g Hg] Hx].
  assert (Hxin : x ∈ poss_prompts σ).
  { destruct Hx as [->|(i & j & _ & _ & Hin)]; [exact Hnet|].
    apply (Hclosed i j x Hin). }
  assert (Ht : turn is_win σ = settle is_win x σb).
  { rewrite turn_unfold, choose_shot_eq. fold l. rewrite Hc.
    change (current_prompt σa) with (current_prompt σ). rewrite Hm.
    reflexivity. }
  rewrite Ht, settle_eq. subst σb.
  destruct (is_win x =? 1)%Z; [|destruct (is_win x =? 0)%Z];
    eexists; eexists; (split; [reflexivity|]);
    (split; [repeat split | exact Hxin]).
Qed.

Lemma play_point_safe (fuel : nat) (σ : globals) (e : exn) (σ' : globals) :
  well_configured σ ->
  current_prompt σ ∈ poss_prompts σ ->
  play_point is_win fuel σ <> Exc e σ'.
Proof.
  revert σ. induction fuel as [|fuel IH]; intros σ Hwc Hcur; [discriminate|].
  rewrite play_point_S.
  destruct (turn_safe σ Hwc Hcur) as (f & σ1 & -> & Hi & Hcur1).
  destruct f; [discriminate|].
  pose proof (IH σ1 (well_configured_same_inputs σ σ1 Hi Hwc) Hcur1) as Hno.
  destruct (play_point is_win fuel σ1) as [n σ2|e2 σ2|]; try discriminate.
  intros [= -> ->]. apply Hno. reflexivity.
Qed.

Lemma choose_server_safe (σ : globals) :
  well_configured σ ->
  exists σ',
    choose_server σ = Ret tt σ' /\
    same_inputs σ σ' /\
    current_prompt σ' ∈ poss_prompts σ'.
Proof.
  intros (HX & _ & _ & _ & _ & _ & Hne & Hserves).
  rewrite choose_server_eq. cbv zeta.
  destruct (Nat.eqb _ 0).
  - eexists. split; [reflexivity|]. split; [repeat split | exact HX].
  - destruct (choice_spec (serves_opponent σ)
                (set_random_state (snd (randbelow 2 (random_state σ))) σ) Hne)
      as (s & Hs & ->).
    eexists. split; [reflexivity|]. split; [repeat split|]. simpl.
    apply Hserves. eapply list_elem_of_lookup_2. exact Hs.
Qed.

Lemma simulate_safe (fuel N : nat) (σ : globals) (e : exn) (σ' : globals) :
  well_configured σ ->
  simulate is_win fuel N σ <> Exc e σ'.
Proof.
  revert σ. induction N as [|N IH]; intros σ Hwc; [discriminate|].
  simpl. intros H. apply bind_Exc in H as [H1|(n & σ1 & H1 & H2)].
  - unfold one_point in H1.
    destruct (choose_server_safe σ Hwc) as (σa & Hs & Hi & Hcur).
    apply bind_Exc in H1 as [H1|(u & σb & Hb & Hp)].
    + rewrite Hs in H1. discriminate.
    + rewrite Hs in Hb. injection Hb as _ <-.
      revert Hp. apply play_point_safe; [|exact Hcur].
      apply (well_configured_same_inputs σ σa Hi Hwc).
  - apply one_point_Ret in H1 as [Hi _]. revert H2. apply IH.
    apply (well_configured_same_inputs σ σ1 Hi Hwc).
Qed.

End Safety.

(** X12.  When every record has a first shot with a first character and
    the globals the preamble hands to the loop are well configured, a run
    over at least one point never raises: as far as it has run it either
    has printed a metric or is still playing a point. *)
Theorem tester_never_raises (is_win : string -> Z) (fuel : nat)
    (π : gmap string (list string)) (N : nat) (σ0 : globals) :
  forallb usable_record (shots_opo_com σ0) = true ->
  well_configured
    (set_serves_opponent (serves_of (shots_opo_com σ0))
       (set_example_policy π σ0)) ->
  1 <= N ->
  tester is_win fuel π N σ0 = OutOfFuel \/
  exists q σ', tester is_win fuel π N σ0 = Ret q σ'.
Proof.
  intros Hrec Hwc HN.
  set (σp := set_points_lost 0
               (set_points_won 0
                  (set_serves_opponent (serves_of (shots_opo_com σ0))
                     (set_example_policy π σ0)))).
  assert (Hp : prepare π σ0 = Ret tt σp).
  { unfold prepare, bind at 1, modify at 1. unfold bind at 1.
    rewrite build_serves_opponent_eq. simpl. rewrite Hrec. reflexivity. }
  assert (Hwcp : well_configured σp).
  { apply (well_configured_same_inputs _ σp) in Hwc; [exact Hwc|].
    repeat split. }
  destruct (simulate is_win fuel N σp) as [u σe|e σe|] eqn:Hs.
  - right. destruct u.
    destruct (win_rate_of_counts_aux is_win fuel π N σ0 σp σe Hp Hs HN)
      as (q & Hq). exists q, σe. exact Hq.
  - exfalso. revert Hs. apply simulate_safe. exact Hwcp.
  - left. rewrite tester_eq, Hp, Hs. reflexivity.
Qed.

Lemma sample_policy_playable : policy_playable Sample.policy Sample.shots.
Proof.
  intros p l H. unfold Sample.policy in H.
  apply lookup_insert_Some in H as [[<- <-]|[_ H]].
  - split; [discriminate|]. intros s Hs.
    repeat (apply elem_of_cons in Hs as [->|Hs];
            [apply index_elem_of_iff; discriminate|]).
    inversion Hs.
  - apply lookup_insert_Some in H as [[<- <-]|[_ H]].
    + split; [discriminate|]. intros s Hs.
      repeat (apply elem_of_cons in Hs as [->|Hs];
              [apply index_elem_of_iff; discriminate|]).
      inversion Hs.
    + rewrite lookup_empty in H. discriminate.
Qed.

Lemma tester_never_raises_witness :
  forallb usable_record (shots_opo_com Sample.court') = true /\
  well_configured
    (set_serves_opponent (serves_of (shots_opo_com Sample.court'))
       (set_example_policy Sample.policy Sample.court')) /\
  tester Sample.is_win 2 (Sample.policy) 6 Sample.court' <> OutOfFuel /\
  exists q σ', tester Sample.is_win 2 Sample.policy 6 Sample.court' = Ret q σ'.
Proof.
  assert (Hrec : forallb usable_record (shots_opo_com Sample.court') = true)
    by reflexivity.
  assert (Hwc : well_configured
                  (set_serves_opponent (serves_of (shots_opo_com Sample.court'))
                     (set_example_policy Sample.policy Sample.court'))).
  { split; [apply index_elem_of_iff; discriminate|].
    split; [apply index_elem_of_iff; discriminate|].
    split; [apply index_elem_of_iff; discriminate|].
    split; [simpl; lia|].
    split; [apply (court_table_closed 1 "X" (fun n => 2 * n + n / 2))|].
    split; [apply sample_policy_playable|].
    split; [discriminate|]. intros s Hs.
    repeat (apply elem_of_cons in Hs as [->|Hs];
            [apply index_elem_of_iff; discriminate|]).
    inversion Hs. }
  assert (Hend : tester Sample.is_win 2 (Sample.policy) 6 Sample.court'
                 <> OutOfFuel) by (vm_compute; discriminate).
  split; [exact Hrec|]. split; [exact Hwc|]. split; [exact Hend|].
  destruct (tester_never_raises Sample.is_win 2 Sample.policy 6 Sample.court'
              Hrec Hwc ltac:(lia)) as [Hout|Hret];
    [contradiction | exact Hret].
Defined.

(** ** The session at the keyboard *)

Section Session.

Variable is_win : string -> Z.

(** What a session leaves: with [earlier] the answers printed before the
    last one, none of them terminal; the counters and the inputs of the
    tester are never touched. *)
Lemma interactive_loop_cases (typed printed : list string) (σ : globals) :
  match interactive_loop is_win typed printed σ with
  | Ended out σ' =>
      exists earlier,
        out = (printed ++ earlier
               ++ [current_prompt σ';
                   if (is_win (current_prompt σ') =? 1)%Z
                   then "Point won!" else "Point lost!"])%list /\
        length earlier < length typed /\
        Forall (fun x => is_win x <> 1%Z /\ is_win x <> 0%Z) earlier /\
        (is_win (current_prompt σ') = 1 \/ is_win (current_prompt σ') = 0)%Z /\
        same_inputs σ σ' /\
        points_won σ' = points_won σ /\ points_lost σ' = points_lost σ
  | Crashed out e σ' =>
      e = ValueError /\
      exists earlier,
        out = (printed ++ earlier)%list /\
        length earlier < length typed /\
        Forall (fun x => is_win x <> 1%Z /\ is_win x <> 0%Z) earlier /\
        same_inputs σ σ' /\
        points_won σ' = points_won σ /\ points_lost σ' = points_lost σ
  | Waiting out σ' =>
      exists earlier,
        out = (printed ++ earlier)%list /\
        length earlier = length typed /\
        Forall (fun x => is_win x <> 1%Z /\ is_win x <> 0%Z) earlier /\
        last (current_prompt σ :: earlier) = Some (current_prompt σ') /\
        same_inputs σ σ' /\
        points_won σ' = points_won σ /\ points_lost σ' = points_lost σ
  end.
Proof.
  revert printed σ. induction typed as [|shot typed IH]; intros printed σ.
  - simpl. exists []. rewrite app_nil_r.
    repeat split; try reflexivity. constructor.
  - simpl. pose proof (model_cases (current_prompt σ) shot σ) as Hm.
    destruct (model (current_prompt σ) shot σ) as [x σ1|e σ1|];
      [| |contradiction].
    + destruct Hm as [[g ->] _].
      destruct (Z.eqb_spec (is_win x) 1) as [E1|E1].
      * exists []. simpl. rewrite E1. simpl. rewrite <- app_assoc.
        repeat split; try reflexivity; try lia; try constructor.
      * destruct (Z.eqb_spec (is_win x) 0) as [E0|E0].
        -- exists []. simpl.
           destruct (Z.eqb_spec (is_win x) 1); [contradiction|].
           rewrite <- app_assoc.
           repeat split; try reflexivity; try lia; try constructor.
        -- specialize (IH (printed ++ [x])%list
                          (set_current_prompt x (set_random_state g σ))).
           destruct (interactive_loop is_win typed (printed ++ [x])%list
                       (set_current_prompt x (set_random_state g σ)))
             as [out σ'|out e σ'|out σ'].
           ++ destruct IH as (earlier & -> & Hlen & Hall & Hterm & Hi & Hw & Hl).
              exists (x :: earlier). rewrite <- app_assoc. simpl.
              split; [reflexivity|]. split; [lia|].
              split; [constructor; [split; assumption | exact Hall]|].
              split; [exact Hterm|].
              split; [|split; assumption].
              eapply same_inputs_trans; [|exact Hi]. repeat split.
           ++ destruct IH as (-> & earlier & -> & Hlen & Hall & Hi & Hw & Hl).
              split; [reflexivity|].
              exists (x :: earlier). rewrite <- app_assoc. simpl.
              split; [reflexivity|]. split; [lia|].
              split; [constructor; [split; assumption | exact Hall]|].
              split; [|split; assumption].
              eapply same_inputs_trans; [|exact Hi]. repeat split.
           ++ destruct IH as (earlier & -> & Hlen & Hall & Hlast & Hi & Hw & Hl).
              exists (x :: earlier). rewrite <- app_assoc. simpl.
              split; [reflexivity|]. split; [lia|].
              split; [constructor; [split; assumption | exact Hall]|].
              split; [exact Hlast|].
              split; [|split; assumption].
              eapply same_inputs_trans; [|exact Hi]. repeat split.
    + destruct Hm as [-> ->]. split; [reflexivity|].
      exists []. rewrite app_nil_r. simpl.
      repeat split; try reflexivity; try lia. constructor.
Qed.

(** Lines typed after the ones that were read. *)
Lemma interactive_loop_app (typed more printed : list string) (σ : globals) :
  interactive_loop is_win (typed ++ more)%list printed σ
  = match interactive_loop is_win typed printed σ with
    | Waiting out σ' => interactive_loop is_win more out σ'
    | r => r
    end.
Proof.
  revert printed σ. induction typed as [|shot typed IH]; intros printed σ;
    [reflexivity|].
  simpl. pose proof (model_cases (current_prompt σ) shot σ) as Hm.
  destruct (model (current_prompt σ) shot σ) as [x σ1|e σ1|];
    [| |contradiction].
  - destruct (is_win x =? 1)%Z; [reflexivity|].
    destruct (is_win x =? 0)%Z; [reflexivity|]. apply IH.
  - reflexivity.
Qed.

End Session.

Lemma model_unlisted_shot_any_prompt (σ : globals) (prompt shot : string) :
  shot ∉ all_shots σ ->
  model prompt shot σ = Exc ValueError σ.
Proof.
  intros Hs. apply index_None in Hs.
  unfold model, bind, gets, list_index. simpl.
  destruct (index prompt (poss_prompts σ)) as [i|]; simpl; [|reflexivity].
  rewrite Hs. reflexivity.
Qed.

(** X13.  A session that ended printed one answer for each line it read and
    then a verdict: the answers before the last are not terminal, the last
    one is the current prompt, and the verdict is ['Point won!'] when
    [is_win] maps it to [1] and ['Point lost!'] when it maps it to [0]. *)
Theorem interactive_session_ended (is_win : string -> Z)
    (typed : list string) (σ : globals) (out : list string) (σ' : globals) :
  interactive is_win typed σ = Ended out σ' ->
  exists earlier verdict,
    out = (earlier ++ [current_prompt σ'; verdict])%list /\
    length earlier < length typed /\
    Forall (fun x => is_win x <> 1%Z /\ is_win x <> 0%Z) earlier /\
    ((is_win (current_prompt σ') = 1%Z /\ verdict = "Point won!") \/
     (is_win (current_prompt σ') = 0%Z /\ verdict = "Point lost!")).
Proof.
  unfold interactive. intros H.
  pose proof (interactive_loop_cases is_win typed []
                (set_current_prompt "X" σ)) as Hc.
  rewrite H in Hc. destruct Hc as (earlier & -> & Hlen & Hall & Hterm & _).
  exists earlier. eexists. split; [reflexivity|]. split; [exact Hlen|].
  split; [exact Hall|].
  destruct (Z.eqb_spec (is_win (current_prompt σ')) 1) as [E|E].
  - left. split; [exact E | reflexivity].
  - right. split; [lia | reflexivity].
Qed.

Lemma interactive_session_ended_witness :
  let r := interactive Sample.is_win ["5"; "b2"; "b2"] Sample.court in
  r = Ended ["f1"; "n@"; "Point lost!"] (session_state r) /\
  exists earlier verdict,
    ["f1"; "n@"; "Point lost!"]
    = (earlier ++ [current_prompt (session_state r); verdict])%list /\
    length earlier < 3.
Proof.
  intros r.
  assert (H : r = Ended ["f1"; "n@"; "Point lost!"] (session_state r))
    by (vm_compute; reflexivity).
  split; [exact H|].
  destruct (interactive_session_ended Sample.is_win _ _ _ _ H)
    as (earlier & verdict & Hout & Hlen & _).
  exists earlier, verdict. split; [exact Hout | exact Hlen].
Defined.

Lemma interactive_keeps_no_score_aux (is_win : string -> Z)
    (typed : list string) (σ : globals) :
  same_inputs σ (session_state (interactive is_win typed σ)).
Proof.
  unfold interactive.
  pose proof (interactive_loop_cases is_win typed []
                (set_current_prompt "X" σ)) as Hc.
  destruct (interactive_loop is_win typed [] (set_current_prompt "X" σ))
    as [out σ'|out e σ'|out σ']; simpl.
  - destruct Hc as (_ & _ & _ & _ & _ & Hi & _). exact Hi.
  - destruct Hc as (_ & _ & _ & _ & _ & Hi & _). exact Hi.
  - destruct Hc as (_ & _ & _ & _ & _ & Hi & _). exact Hi.
Qed.

(** X14.  A session keeps no score and changes no input of the tester:
    however it stands, the two counters, the vocabularies, the table, the
    records, the threshold, the policy and the list of serves are as
    before. *)
Theorem interactive_keeps_no_score (is_win : string -> Z)
    (typed : list string) (σ : globals) :
  points_won (session_state (interactive is_win typed σ)) = points_won σ /\
  points_lost (session_state (interactive is_win typed σ)) = points_lost σ /\
  same_inputs σ (session_state (interactive is_win typed σ)).
Proof.
  unfold interactive.
  pose proof (interactive_loop_cases is_win typed []
                (set_current_prompt "X" σ)) as Hc.
  destruct (interactive_loop is_win typed [] (set_current_prompt "X" σ))
    as [out σ'|out e σ'|out σ']; simpl.
  - destruct Hc as (_ & _ & _ & _ & _ & Hi & Hw & Hl).
    split; [exact Hw|]. split; [exact Hl|]. exact Hi.
  - destruct Hc as (_ & _ & _ & _ & _ & Hi & Hw & Hl).
    split; [exact Hw|]. split; [exact Hl|]. exact Hi.
  - destruct Hc as (_ & _ & _ & _ & _ & Hi & Hw & Hl).
    split; [exact Hw|]. split; [exact Hl|]. exact Hi.
Qed.

(** X15.  Lines typed after a session ended or crashed are never read: the
    session stands as it did.  A session that is waiting goes on from where
    it stands with the lines typed next. *)
Theorem interactive_typing_on (is_win : string -> Z)
    (typed more : list string) (σ : globals) :
  (forall out σ', interactive is_win typed σ = Ended out σ' ->
     interactive is_win (typed ++ more)%list σ = Ended out σ') /\
  (forall out e σ', interactive is_win typed σ = Crashed out e σ' ->
     interactive is_win (typed ++ more)%list σ = Crashed out e σ') /\
  (forall out σ', interactive is_win typed σ = Waiting out σ' ->
     interactive is_win (typed ++ more)%list σ
     = interactive_loop is_win more out σ').
Proof.
  unfold interactive.
  repeat split; intros; rewrite interactive_loop_app;
    match goal with H : _ = _ |- _ => rewrite H end; reflexivity.
Qed.

Lemma interactive_typing_on_witness :
  let r := interactive Sample.is_win ["5"; "b2"] Sample.court in
  r = Ended ["f1"; "n@"; "Point lost!"] (session_state r) /\
  interactive Sample.is_win ["5"; "b2"; "b2"; "zz"] Sample.court = r.
Proof.
  intros r.
  assert (H : r = Ended ["f1"; "n@"; "Point lost!"] (session_state r))
    by (vm_compute; reflexivity).
  split; [exact H|].
  destruct (interactive_typing_on Sample.is_win ["5"; "b2"] ["b2"; "zz"]
              Sample.court) as (Hended & _ & _).
  transitivity (Ended ["f1"; "n@"; "Point lost!"] (session_state r));
    [exact (Hended _ _ H) | symmetry; exact H].
Defined.

(** X16.  A line that is not an allowed shot crashes a waiting session with
    [ValueError]: what was printed stays as it was and nothing is printed
    for that line or read after it. *)
Theorem interactive_unlisted_shot_crashes (is_win : string -> Z)
    (typed more : list string) (shot : string) (σ : globals)
    (out : list string) (σ' : globals) :
  interactive is_win typed σ = Waiting out σ' ->
  shot ∉ all_shots σ ->
  interactive is_win (typed ++ shot :: more)%list σ
  = Crashed out ValueError σ'.
Proof.
  intros H Hs.
  pose proof (interactive_keeps_no_score_aux is_win typed σ) as Hi.
  rewrite H in Hi. simpl in Hi.
  unfold interactive in *. rewrite interactive_loop_app, H. simpl.
  rewrite model_unlisted_shot_any_prompt; [reflexivity|].
  destruct Hi as (_ & Hsh & _). rewrite Hsh. exact Hs.
Qed.

Lemma interactive_unlisted_shot_crashes_witness :
  let r := interactive Sample.is_win ["5"] Sample.court in
  r = Waiting ["f1"] (session_state r) /\
  ("zz" ∉ all_shots Sample.court) /\
  interactive Sample.is_win ["5"; "zz"; "b2"] Sample.court
  = Crashed ["f1"] ValueError (session_state r).
Proof.
  intros r.
  assert (H : r = Waiting ["f1"] (session_state r)) by (vm_compute; reflexivity).
  assert (Hs : "zz" ∉ all_shots Sample.court)
    by (apply index_None; reflexivity).
  split; [exact H|]. split; [exact Hs|].
  apply (interactive_unlisted_shot_crashes Sample.is_win ["5"] ["b2"] "zz"
           Sample.court ["f1"] (session_state r) H Hs).
Defined.

(** X17.  A session that has read every line typed and is waiting for the
    next one has printed one answer per line, none of them terminal, and
    stands at the last answer (at ['X'] if nothing was typed): the loop has
    no other way out than a terminal answer or an exception. *)
Theorem interactive_session_waiting (is_win : string -> Z)
    (typed : list string) (σ : globals) (out : list string) (σ' : globals) :
  interactive is_win typed σ = Waiting out σ' ->
  length out = length typed /\
  Forall (fun x => is_win x <> 1%Z /\ is_win x <> 0%Z) out /\
  last ("X" :: out) = Some (current_prompt σ').
Proof.
  unfold interactive. intros H.
  pose proof (interactive_loop_cases is_win typed []
                (set_current_prompt "X" σ)) as Hc.
  rewrite H in Hc.
  destruct Hc as (earlier & -> & Hlen & Hall & Hlast & _).
  simpl. repeat split; assumption.
Qed.

Lemma interactive_session_waiting_witness :
  let σ := Sample.world Sample.court_rows 1 "f1" (fun n => 2) in
  let r := interactive Sample.is_win ["5"; "b2"; "b2"] σ in
  r = Waiting ["f3"; "f3"; "f3"] (session_state r) /\
  last ["X"; "f3"; "f3"; "f3"] = Some (current_prompt (session_state r)).
Proof.
  intros σ r.
  assert (H : r = Waiting ["f3"; "f3"; "f3"] (session_state r))
    by (vm_compute; reflexivity).
  split; [exact H|].
  destruct (interactive_session_waiting Sample.is_win _ _ _ _ H)
    as (_ & _ & Hlast).
  exact Hlast.
Defined.

(** ** The preamble and a run over no point *)

Lemma prepare_eq (π : gmap string (list string)) (σ0 : globals) :
  prepare π σ0
  = if forallb usable_record (shots_opo_com σ0)
    then Ret tt
           (set_points_lost 0
              (set_points_won 0
                 (set_serves_opponent (serves_of (shots_opo_com σ0))
                    (set_example_policy π σ0))))
    else Exc IndexError (set_example_policy π σ0).
Proof.
  unfold prepare, bind at 1, modify at 1. unfold bind at 1.
  rewrite build_serves_opponent_eq. simpl.
  destruct (forallb usable_record (shots_opo_com σ0)); reflexivity.
Qed.

(** X11.  Asked for no point, the cell makes no draw and raises
    [ZeroDivisionError] at the metric, with both counters at zero, once the
    preamble has gone through. *)
Theorem no_points_no_metric (is_win : string -> Z) (fuel : nat)
    (π : gmap string (list string)) (σ0 : globals) :
  forallb usable_record (shots_opo_com σ0) = true ->
  exists σ1,
    tester is_win fuel π 0 σ0 = Exc ZeroDivisionError σ1 /\
    points_won σ1 = 0 /\ points_lost σ1 = 0 /\
    random_state σ1 = random_state σ0.
Proof.
  intros Hrec. eexists. rewrite tester_eq, prepare_eq, Hrec. simpl.
  split; [reflexivity|]. repeat split.
Qed.

Lemma no_points_no_metric_witness :
  forallb usable_record (shots_opo_com Sample.court_used) = true /\
  exists σ1,
    tester Sample.is_win 10 Sample.policy 0 Sample.court_used
    = Exc ZeroDivisionError σ1 /\
    points_won σ1 = 0.
Proof.
  assert (Hrec : forallb usable_record (shots_opo_com Sample.court_used) = true)
    by reflexivity.
  split; [exact Hrec|].
  destruct (no_points_no_metric Sample.is_win 10 Sample.policy
              Sample.court_used Hrec) as (σ1 & Ht & Hw & _).
  exists σ1. split; [exact Ht | exact Hw].
Defined.

(** X18.  When a record has no first shot, or a first shot has no first
    character, the cell raises [IndexError] before any point is played and
    before the counters are reset: the policy is already the new one, every
    other global is as the earlier cells left it. *)
Theorem unusable_record_stops_tester (is_win : string -> Z) (fuel : nat)
    (π : gmap string (list string)) (N : nat) (σ0 : globals) :
  forallb usable_record (shots_opo_com σ0) = false ->
  tester is_win fuel π N σ0 = Exc IndexError (set_example_policy π σ0).
Proof.
  intros Hrec. rewrite tester_eq, prepare_eq, Hrec. reflexivity.
Qed.

Lemma unusable_record_stops_tester_witness :
  let σ0 :=
    {| poss_prompts := Sample.prompts; all_shots := Sample.shots;
       Model := Sample.table Sample.court_rows;
       shots_opo_com := [["5"; "f1"]; []; ["6"]];
       threshold := 1; example_policy := ∅; serves_opponent := ["4"];
       points_won := 17; points_lost := 4; current_prompt := "n@";
       random_state := Rng (fun n => n) 0 |} in
  forallb usable_record (shots_opo_com σ0) = false /\
  tester Sample.is_win 10 Sample.policy 6 σ0
  = Exc IndexError (set_example_policy Sample.policy σ0).
Proof.
  intros σ0.
  assert (Hrec : forallb usable_record (shots_opo_com σ0) = false)
    by reflexivity.
  split; [exact Hrec|].
  apply (unusable_record_stops_tester Sample.is_win 10 Sample.policy 6 σ0 Hrec).
Defined.

(** ** The start of a point *)

(** The serves the comprehension keeps are the first shots of the records
    that begin with ['4'], ['5'] or ['6'], and no others. *)
Lemma serves_of_elem (rs : list (list string)) (s : string) :
  s ∈ serves_of rs <->
  (exists sh, sh ∈ rs /\ head sh = Some s) /\ starts_456 s = true.
Proof.
  unfold serves_of. rewrite list_elem_of_In, filter_In, in_map_iff. split.
  - intros [(sh & Hhd & Hin) Hs]. split; [|exact Hs].
    exists sh. split; [apply list_elem_of_In; exact Hin|].
    destruct sh as [|shot sh']; simpl in *; [|congruence].
    subst s. discriminate.
  - intros [(sh & Hin & Hhd) Hs]. split; [|exact Hs].
    exists sh. split; [|apply list_elem_of_In; exact Hin].
    destruct sh as [|shot sh']; simpl in *; congruence.
Qed.

(** The list of serves the loop reads is the one the preamble computed from
    the records. *)
Lemma serves_from_records (is_win : string -> Z) (fuel : nat)
    (π : gmap string (list string)) (σ0 σ1 : globals) (k : nat)
    (σ : globals) :
  prepare π σ0 = Ret tt σ1 ->
  at_iteration is_win fuel σ1 k σ ->
  serves_opponent σ = serves_of (shots_opo_com σ0).
Proof.
  intros Hp Hk. rewrite prepare_eq in Hp.
  destruct (forallb usable_record (shots_opo_com σ0)); [|discriminate].
  injection Hp as <-.
  apply at_iteration_same_inputs in Hk as [Hi _].
  destruct Hi as (_ & _ & _ & _ & _ & _ & Hserves). exact Hserves.
Qed.

(** A generator that makes the server's draw [1] and the draw of the serve
    [i]. *)
Lemma choose_server_reaches (σ : globals) (i : nat) (s : string) :
  serves_opponent σ !! i = Some s ->
  exists g σ',
    choose_server (set_random_state g σ) = Ret tt σ' /\
    current_prompt σ' = s.
Proof.
  intros Hi.
  exists (Rng (fun n => if Nat.eqb n 0 then 1 else i) 0).
  rewrite choose_server_eq. cbv zeta. simpl.
  assert (Hne : serves_opponent σ <> []).
  { intros E. rewrite E in Hi. discriminate. }
  match goal with |- context [choice ?l ?st] =>
    destruct (choice_spec l st Hne) as (x & Hx & ->) end.
  simpl in Hx.
  assert (Hlt : i < length (serves_opponent σ))
    by (eapply lookup_lt_Some; eauto).
  rewrite Nat.mod_small in Hx by exact Hlt.
  rewrite Hi in Hx. injection Hx as <-.
  eexists. split; reflexivity.
Qed.

(** C8.  At the top of every iteration of the [for] loop the list of serves
    is the one the preamble computed from the records: its members are
    exactly the first shots of records that begin with ['4'], ['5'] or
    ['6'].  One draw below [2] decides the start of the point: on [0] the
    current prompt becomes ['X']; otherwise, when some record begins with
    such a serve, it becomes a member of that list chosen by a second draw.
    Both cases, and every serve of the list, are the start for some value of
    the draws.  The loop of the point then starts from the globals this
    choice left. *)
Theorem server_chosen_per_point (is_win : string -> Z) (fuel : nat)
    (π : gmap string (list string)) (σ0 σ1 : globals) (k : nat)
    (σ : globals) :
  prepare π σ0 = Ret tt σ1 ->
  at_iteration is_win fuel σ1 k σ ->
  let r := fst (randbelow 2 (random_state σ)) in
  serves_opponent σ = serves_of (shots_opo_com σ0) /\
  (forall s, s ∈ serves_opponent σ <->
     (exists sh, sh ∈ shots_opo_com σ0 /\ head sh = Some s) /\
     starts_456 s = true) /\
  (r = 0 ->
   exists σ', choose_server σ = Ret tt σ' /\ current_prompt σ' = "X") /\
  (r <> 0 ->
   (exists sh s, sh ∈ shots_opo_com σ0 /\ head sh = Some s /\
                 starts_456 s = true) ->
   exists σ', choose_server σ = Ret tt σ' /\
     current_prompt σ' ∈ serves_opponent σ /\
     historical_serve σ (current_prompt σ')) /\
  (exists g σ',
     choose_server (set_random_state g σ) = Ret tt σ' /\
     current_prompt σ' = "X") /\
  (forall s, s ∈ serves_opponent σ ->
     exists g σ',
       choose_server (set_random_state g σ) = Ret tt σ' /\
       current_prompt σ' = s) /\
  (forall σ', choose_server σ = Ret tt σ' ->
     (current_prompt σ' = "X" \/ historical_serve σ (current_prompt σ')) /\
     one_point is_win fuel σ = play_point is_win fuel σ').
Proof.
  intros Hp Hk r.
  pose proof (serves_historical is_win fuel π σ0 tt σ1 k σ Hp Hk) as Hhist.
  pose proof (serves_from_records is_win fuel π σ0 σ1 k σ Hp Hk) as Hserves.
  split; [exact Hserves|].
  split; [intros s; rewrite Hserves; apply serves_of_elem|].
  split; [|split; [|split; [|split]]].
  - intros Hr. rewrite choose_server_eq. cbv zeta. fold r. rewrite Hr.
    eexists. split; reflexivity.
  - intros Hr (sh & s & Hin & Hhd & Hs).
    assert (Hne : serves_opponent σ <> []).
    { assert (Hmem : s ∈ serves_opponent σ).
      { rewrite Hserves. apply serves_of_elem. split; [|exact Hs].
        exists sh. split; assumption. }
      intros E. rewrite E in Hmem. inversion Hmem. }
    rewrite choose_server_eq. cbv zeta. fold r.
    destruct (Nat.eqb_spec r 0) as [E|_]; [contradiction|].
    destruct (choice_spec (serves_opponent σ)
                (set_random_state (snd (randbelow 2 (random_state σ))) σ) Hne)
      as (x & Hx & Hc).
    rewrite Hc. eexists. split; [reflexivity|]. simpl.
    apply list_elem_of_lookup_2 in Hx. split; [exact Hx | apply Hhist, Hx].
  - exists (Rng (fun _ => 0) 0). rewrite choose_server_eq. cbv zeta. simpl.
    eexists. split; reflexivity.
  - intros s Hs. apply list_elem_of_lookup_1 in Hs as [i Hi].
    apply (choose_server_reaches σ i s Hi).
  - intros σ' Hc. split.
    + apply choose_server_Ret in Hc as (_ & _ & _ & [HX|Hs]);
        [left; exact HX | right; apply Hhist, Hs].
    + unfold one_point, bind. rewrite Hc. reflexivity.
Qed.

Lemma server_chosen_per_point_witness :
  let σ0 := set_random_state (Rng (fun n => n + 1) 0) Sample.court_used in
  let σ1 := Sample.state_of σ0 (prepare Sample.policy) in
  serves_opponent σ0 = [] /\
  prepare Sample.policy σ0 = Ret tt σ1 /\
  at_iteration Sample.is_win 10 σ1 0 σ1 /\
  fst (randbelow 2 (random_state σ1)) <> 0 /\
  serves_opponent σ1 = ["5"; "6"; "4"; "5"] /\
  exists σ',
    choose_server σ1 = Ret tt σ' /\
    current_prompt σ' = "4" /\
    historical_serve σ1 "4".
Proof.
  intros σ0 σ1.
  assert (Hp : prepare Sample.policy σ0 = Ret tt σ1)
    by (vm_compute; reflexivity).
  assert (Hk : at_iteration Sample.is_win 10 σ1 0 σ1) by apply at_first.
  assert (Hr : fst (randbelow 2 (random_state σ1)) <> 0)
    by (vm_compute; discriminate).
  destruct (server_chosen_per_point Sample.is_win 10 Sample.policy
              σ0 σ1 0 σ1 Hp Hk) as (Hserves & _ & _ & Hopp & _).
  split; [reflexivity|]. split; [exact Hp|]. split; [exact Hk|].
  split; [exact Hr|]. split; [rewrite Hserves; reflexivity|].
  destruct (Hopp Hr) as (σ' & Hc & _ & Hhist).
  { exists ["6"; "f3"], "6". split; [|split; reflexivity].
    simpl. right. right. left. }
  assert (Hc' : choose_server σ1 = Ret tt (Sample.state_of σ1 choose_server))
    by (vm_compute; reflexivity).
  rewrite Hc' in Hc. injection Hc as <-.
  exists (Sample.state_of σ1 choose_server).
  split; [exact Hc'|]. split; [reflexivity | exact Hhist].
Defined.
